(** * Worker supervision of yggdrasil (the worker handling of cmd/yggd)

    A shallow embedding of [loadWorkerConfig], [startWorker], [stopWorker],
    [watchWorkerDir], [workerExists] and [validEnvVar], together with the
    parts of Go's [strings], [strconv], [path/filepath], [regexp] and [os]
    packages these functions call.

    Go strings are byte sequences: they are modelled as [string], whose
    characters are the 256 values of [ascii].  [time.Duration] is an [int64]
    count of nanoseconds: it is modelled in [Z], with the wrap-around of the
    one addition the code performs written out.  The file system is a finite
    map from paths to nodes.  Goroutines are sequentialised into one trace
    of events; the two goroutines that copy a worker's output to the log are
    left out. *)

From Stdlib Require Import ZArith Lia Bool Ascii DecimalString DecimalPos.
From Stdlib Require String.
From stdpp Require Import base list gmap strings.

Local Open Scope Z_scope.

(* ===================================================================== *)
(** * Byte strings *)
(* ===================================================================== *)

Module Str.

Definition LF : ascii := "010"%char.

Definition is_LF (c : ascii) : bool := Ascii.eqb c LF.

(** [s] contains no line feed. *)
Fixpoint no_LF (s : string) : bool :=
  match s with
  | EmptyString => true
  | String c s' => negb (is_LF c) && no_LF s'
  end.

(** [s] does not contain the byte [c]. *)
Fixpoint lacks (c : ascii) (s : string) : bool :=
  match s with
  | EmptyString => true
  | String d s' => negb (Ascii.eqb d c) && lacks c s'
  end.

(** [sub] occurs in [s]. *)
Definition contains (s sub : string) : Prop :=
  exists a c, s = a +:+ sub +:+ c.

Fixpoint rev (s : string) : string :=
  match s with
  | EmptyString => ""
  | String c s' => rev s' +:+ String c ""
  end.

(** The byte with code [n]. *)
Definition byte (n : N) : ascii := ascii_of_N n.

Definition code (c : ascii) : Z := Z.of_N (N_of_ascii c).

End Str.

(* ===================================================================== *)
(** * Package [strings] *)
(* ===================================================================== *)

Module Strings.

(** [strings.Split s sep] for a separator [sep] of one byte: the pieces of
    [s] between the occurrences of [sep].  The result is never empty:
    [Split "" sep] is [[""]]. *)
Fixpoint Split (s : string) (sep : ascii) : list string :=
  match s with
  | EmptyString => [""]
  | String c s' =>
      if Ascii.eqb c sep then "" :: Split s' sep
      else match Split s' sep with
           | tok :: rest => String c tok :: rest
           | [] => [String c ""]
           end
  end.

(** [strings.Join elems sep]. *)
Fixpoint Join (elems : list string) (sep : string) : string :=
  match elems with
  | [] => ""
  | [x] => x
  | x :: rest => x +:+ sep +:+ Join rest sep
  end.

(** [stripSuffix suffix s] is [Some p] when [s = p +:+ suffix]. *)
Fixpoint stripSuffix (suffix s : string) : option string :=
  if String.eqb s suffix then Some ""
  else match s with
       | EmptyString => None
       | String c s' => option_map (String c) (stripSuffix suffix s')
       end.

Definition TrimSuffix (s suffix : string) : string :=
  match stripSuffix suffix s with Some p => p | None => s end.

(** The white space of [unicode.IsSpace].  One byte: tab, line feed,
    vertical tab, form feed, carriage return, space. *)
Definition asciiSpace (c : ascii) : bool :=
  match Str.code c with
  | 9 | 10 | 11 | 12 | 13 | 32 => true
  | _ => false
  end.

(** Two bytes: U+0085 and U+00A0. *)
Definition space2 (a b : ascii) : bool :=
  match Str.code a, Str.code b with
  | 194, 133 | 194, 160 => true
  | _, _ => false
  end.

(** Three bytes: U+1680, U+2000 to U+200A, U+2028, U+2029, U+202F, U+205F
    and U+3000. *)
Definition space3 (a b c : ascii) : bool :=
  match Str.code a, Str.code b, Str.code c with
  | 225, 154, 128 => true
  | 226, 128, z => ((128 <=? z) && (z <=? 138)) || (z =? 168) || (z =? 169)
                   || (z =? 175)
  | 226, 129, 159 => true
  | 227, 128, 128 => true
  | _, _, _ => false
  end.

(** Drop the white-space runes at the start of [s].  With [fwd = false],
    [s] is a reversed string and the bytes of a rune come last byte first:
    this drops what [utf8.DecodeLastRuneInString] finds at the end. *)
Fixpoint trimLeading (fwd : bool) (s : string) : string :=
  match s with
  | EmptyString => ""
  | String c1 s1 =>
      if asciiSpace c1 then trimLeading fwd s1
      else
        match s1 with
        | EmptyString => s
        | String c2 s2 =>
            if (if fwd then space2 c1 c2 else space2 c2 c1)
            then trimLeading fwd s2
            else
              match s2 with
              | EmptyString => s
              | String c3 s3 =>
                  if (if fwd then space3 c1 c2 c3 else space3 c3 c2 c1)
                  then trimLeading fwd s3
                  else s
              end
        end
  end.

(** [strings.TrimSpace]. *)
Definition TrimSpace (s : string) : string :=
  Str.rev (trimLeading false (Str.rev (trimLeading true s))).

Definition HasSuffix (s suffix : string) : bool :=
  match stripSuffix suffix s with Some _ => true | None => false end.

Fixpoint inCutset (c : ascii) (cutset : string) : bool :=
  match cutset with
  | EmptyString => false
  | String d cutset' => Ascii.eqb c d || inCutset c cutset'
  end.

Fixpoint dropCutset (cutset s : string) : string :=
  match s with
  | EmptyString => ""
  | String c s' => if inCutset c cutset then dropCutset cutset s' else s
  end.

(** [strings.TrimRight s cutset] for a cutset of ASCII characters: without
    the bytes of the cutset at its end. *)
Definition TrimRight (s cutset : string) : string :=
  Str.rev (dropCutset cutset (Str.rev s)).

End Strings.

(* ===================================================================== *)
(** * Package [strconv] *)
(* ===================================================================== *)

Module Strconv.

Inductive NumError : Type := ErrSyntax | ErrRange.

Definition digit (c : ascii) : option Z :=
  let n := Str.code c in
  if (48 <=? n) && (n <=? 57) then Some (n - 48) else None.

(** The loop of [ParseUint] in base 10 with 64 bits: a byte that is not a
    digit is a syntax error, a value above [2^64 - 1] a range error. *)
Fixpoint parseDigits (acc : Z) (s : string) : Z + NumError :=
  match s with
  | EmptyString => inl acc
  | String c s' =>
      match digit c with
      | None => inr ErrSyntax
      | Some d =>
          let n := 10 * acc + d in
          if n >? 2 ^ 64 - 1 then inr ErrRange else parseDigits n s'
      end
  end.

(** [strconv.ParseInt(s, 10, 64)]. *)
Definition ParseInt (s : string) : Z + NumError :=
  match s with
  | EmptyString => inr ErrSyntax
  | String c s' =>
      let neg := Ascii.eqb c "-" in
      let body := if Ascii.eqb c "+" || neg then s' else s in
      match body with
      | EmptyString => inr ErrSyntax
      | _ =>
          match parseDigits 0 body with
          | inr e => inr e
          | inl un =>
              if neg
              then if un >? 2 ^ 63 then inr ErrRange else inl (- un)
              else if un >=? 2 ^ 63 then inr ErrRange else inl un
          end
      end
  end.

(** [fmt.Sprintf("%v", n)] for an [int]. *)
Definition FormatInt (n : Z) : string := NilZero.string_of_int (Z.to_int n).

End Strconv.

(* ===================================================================== *)
(** * Package [path/filepath] (Unix) *)
(* ===================================================================== *)

Module Filepath.

Definition IsPathSeparator (c : ascii) : bool := Ascii.eqb c "/".

Fixpoint dropSeparators (s : string) : string :=
  match s with
  | EmptyString => ""
  | String c s' => if IsPathSeparator c then dropSeparators s' else s
  end.

Fixpoint untilSeparator (s : string) : string :=
  match s with
  | EmptyString => ""
  | String c s' => if IsPathSeparator c then "" else String c (untilSeparator s')
  end.

(** [filepath.Base]: strip the trailing separators, keep what follows the
    last separator left. *)
Definition Base (path : string) : string :=
  if String.eqb path "" then "."
  else
    let e := Str.rev (untilSeparator (dropSeparators (Str.rev path))) in
    if String.eqb e "" then "/" else e.

(** The loop of [filepath.Ext], on the reversed path: [acc] is the part
    of the path already passed. *)
Fixpoint extFrom (r acc : string) : string :=
  match r with
  | EmptyString => ""
  | String c r' =>
      if IsPathSeparator c then ""
      else if Ascii.eqb c "." then String c acc
      else extFrom r' (String c acc)
  end.

(** [filepath.Ext]: the suffix that starts at the last dot of the last
    element of the path. *)
Definition Ext (path : string) : string := extFrom (Str.rev path) "".

(** One element of the path in [filepath.Clean]; [stack] holds the elements
    kept so far, last first. *)
Definition cleanStep (rooted : bool) (stack : list string) (e : string)
  : list string :=
  if String.eqb e "" || String.eqb e "." then stack
  else if String.eqb e ".." then
    match stack with
    | top :: below =>
        if String.eqb top ".." then ".." :: stack else below
    | [] => if rooted then [] else [".."]
    end
  else e :: stack.

(** [filepath.Clean]. *)
Definition Clean (path : string) : string :=
  match path with
  | EmptyString => "."
  | String c _ =>
      let rooted := IsPathSeparator c in
      let stack := fold_left (cleanStep rooted) (Strings.Split path "/") [] in
      let body := Strings.Join (List.rev stack) "/" in
      let out := if rooted then "/" +:+ body else body in
      if String.eqb out "" then "." else out
  end.

(** [filepath.Join]: the elements from the first one that is not empty,
    joined with separators and cleaned. *)
Fixpoint Join (elem : list string) : string :=
  match elem with
  | [] => ""
  | e :: rest =>
      if String.eqb e "" then Join rest else Clean (Strings.Join elem "/")
  end.

End Filepath.

(* ===================================================================== *)
(** * Package [regexp], for the patterns of [validEnvVar] *)
(* ===================================================================== *)

Module Regexp.

(** Abstract syntax.  [Dot] is Go's [.] without the [s] flag: any character
    but a line feed.  A character of the input is a rune, but a rune other
    than a line feed occupies one to four bytes none of which is the byte
    10, and every byte sequence decodes to runes (an invalid byte decodes to
    the one-byte error rune), so that [.*] matches exactly the byte strings
    without the byte 10.  [Void] and [Alt] arise from derivatives. *)
Inductive regex : Type :=
| Void
| Eps
| Lit (c : ascii)
| Dot
| Cat (r1 r2 : regex)
| Alt (r1 r2 : regex)
| Star (r : regex).

(** The language of a regular expression. *)
Inductive matches : regex -> string -> Prop :=
| MEps : matches Eps ""
| MLit c : matches (Lit c) (String c "")
| MDot c : Str.is_LF c = false -> matches Dot (String c "")
| MCat r1 r2 s1 s2 :
    matches r1 s1 -> matches r2 s2 -> matches (Cat r1 r2) (s1 +:+ s2)
| MAltL r1 r2 s : matches r1 s -> matches (Alt r1 r2) s
| MAltR r1 r2 s : matches r2 s -> matches (Alt r1 r2) s
| MStar0 r : matches (Star r) ""
| MStarS r s1 s2 :
    matches r s1 -> matches (Star r) s2 -> matches (Star r) (s1 +:+ s2).

(** [regexp.MustCompile] on the syntax the two patterns of the source use:
    literal characters, [.] and a postfix [*]. *)
Fixpoint MustCompile (p : string) : regex :=
  match p with
  | EmptyString => Eps
  | String c p' =>
      let atom := if Ascii.eqb c "." then Dot else Lit c in
      match p' with
      | String "*" p'' => Cat (Star atom) (MustCompile p'')
      | _ => Cat atom (MustCompile p')
      end
  end.

Fixpoint nullable (r : regex) : bool :=
  match r with
  | Void => false
  | Eps => true
  | Lit _ => false
  | Dot => false
  | Cat r1 r2 => nullable r1 && nullable r2
  | Alt r1 r2 => nullable r1 || nullable r2
  | Star _ => true
  end.

(** Brzozowski derivative by the byte [c]. *)
Fixpoint deriv (c : ascii) (r : regex) : regex :=
  match r with
  | Void => Void
  | Eps => Void
  | Lit d => if Ascii.eqb c d then Eps else Void
  | Dot => if Str.is_LF c then Void else Eps
  | Cat r1 r2 =>
      if nullable r1
      then Alt (Cat (deriv c r1) r2) (deriv c r2)
      else Cat (deriv c r1) r2
  | Alt r1 r2 => Alt (deriv c r1) (deriv c r2)
  | Star r1 => Cat (deriv c r1) (Star r1)
  end.

(** Some prefix of [s] is in the language of [r]. *)
Fixpoint matchPrefix (r : regex) (s : string) : bool :=
  nullable r ||
  match s with
  | EmptyString => false
  | String c s' => matchPrefix (deriv c r) s'
  end.

(** The method [Match] of a compiled expression: the input contains a match
    of [r] (the search is not anchored). *)
Fixpoint Match (r : regex) (s : string) : bool :=
  matchPrefix r s ||
  match s with
  | EmptyString => false
  | String _ s' => Match r s'
  end.

End Regexp.

(** [validEnvVar]: the deny-list of the child environment. *)
Definition envPatterns : list string := ["PATH=.*"; "YGG_.*=.*"].

Definition validEnvVar (val : string) : bool :=
  negb (existsb (fun pattern => Regexp.Match (Regexp.MustCompile pattern) val)
                envPatterns).

(* ===================================================================== *)
(** * Errors, files and processes *)
(* ===================================================================== *)

Inductive errno : Type :=
| ENOENT | EACCES | ENOTDIR | EIO | EPERM | ESRCH | ECHILD | ENOEXEC.

(** Go [error] values.  [Wrap msg e] is [fmt.Errorf(msg + ": %w", e)]. *)
Inductive error : Type :=
| ErrOS (e : errno)
| ErrNum (e : Strconv.NumError)
| ErrToml
| ErrUnsupportedProtocol (protocol : string)
| ErrTooManyTimes (program : string)
| Wrap (msg : string) (e : error).

(** Why a path that is present cannot be examined. *)
Inductive fault : Type := PermissionDenied | NotADirectory | InputOutput.

Definition errno_of_fault (f : fault) : errno :=
  match f with
  | PermissionDenied => EACCES
  | NotADirectory => ENOTDIR
  | InputOutput => EIO
  end.

(** What the file system holds at a path: a regular file with its content,
    or an entry on which every system call fails with the error of [f]; a
    path outside the map does not exist. *)
Inductive node : Type :=
| Regular (data : string)
| Unverifiable (f : fault).

(** [os.Stat]: the error, [None] on success (the file information is not
    used by the callers). *)
Definition Stat (fs : gmap string node) (path : string) : option errno :=
  match fs !! path with
  | None => Some ENOENT
  | Some (Regular _) => None
  | Some (Unverifiable f) => Some (errno_of_fault f)
  end.

(** [os.IsNotExist]; it is false of the nil error. *)
Definition IsNotExist (err : option errno) : bool :=
  match err with
  | Some ENOENT => true
  | _ => false
  end.

(** [ioutil.ReadFile]. *)
Definition ReadFile (fs : gmap string node) (path : string) : string + errno :=
  match fs !! path with
  | None => inr ENOENT
  | Some (Regular data) => inl data
  | Some (Unverifiable f) => inr (errno_of_fault f)
  end.

(** What the kernel answers, besides the content of the file system:
    whether a signal to a pid is delivered, and whether a file that exists
    may be unlinked ([None] is success). *)
Record Kernel : Type := {
  sigterm : Z -> option errno;
  unlink : string -> option errno
}.

(** [os.Remove]. *)
Definition Remove (k : Kernel) (fs : gmap string node) (path : string)
  : gmap string node + errno :=
  match fs !! path with
  | None => inr ENOENT
  | Some (Unverifiable f) => inr (errno_of_fault f)
  | Some (Regular _) =>
      match unlink k path with
      | Some e => inr e
      | None => inl (delete path fs)
      end
  end.

(** What other actors do to the file system while the daemon runs. *)
Inductive fs_op : Type :=
| FsCreate (path data : string)
| FsRemove (path : string)
| FsBreak (path : string) (f : fault).

Definition apply_op (fs : gmap string node) (op : fs_op) : gmap string node :=
  match op with
  | FsCreate path data => <[path := Regular data]> fs
  | FsRemove path => delete path fs
  | FsBreak path f => <[path := Unverifiable f]> fs
  end.

Definition apply_ops (ops : list fs_op) (fs : gmap string node)
  : gmap string node :=
  fold_left apply_op ops fs.


(** One run of a worker process, as the operating system decides it: the
    pid or the error of the creation, the errors of creating the pid
    directory and of writing the pid file, what happens to the file system
    while the process runs, and the system CPU time (in nanoseconds) the
    process has used when it exits, or the error of waiting for it. *)
Record proc_run : Type := {
  run_start : Z + errno;
  run_mkdir : option errno;
  run_write : option errno;
  run_during : list fs_op;
  run_wait : Z + errno
}.

(** Modelled from the spec: [startProcess] is not in the sources.  It
    creates the process for a program, its arguments and its environment;
    either the creation fails and the error is returned, or the process has
    a pid and the callback runs with it. *)
Definition startProcess (r : proc_run) (program : string)
  (args env : list string) : Z + error :=
  match run_start r with
  | inl pid => inl pid
  | inr e => inr (ErrOS e)
  end.

(** Modelled from the spec: [waitProcess] is not in the sources.  It waits
    for the process to terminate; either waiting fails and the error is
    returned, or the callback runs with the state of the terminated
    process, of which the code reads the system time. *)
Definition waitProcess (r : proc_run) (pid : Z) : Z + error :=
  match run_wait r with
  | inl systemTime => inl systemTime
  | inr e => inr (ErrOS e)
  end.

(** Modelled from the spec: [stopProcess] is not in the sources.  It
    delivers a termination signal to the process id, or returns the error
    of the delivery. *)
Definition stopProcess (k : Kernel) (pid : Z) : option error :=
  match sigterm k pid with
  | Some e => Some (ErrOS e)
  | None => None
  end.

(* ===================================================================== *)
(** * The worker supervisor *)
(* ===================================================================== *)

Record workerConfig : Type := {
  Exec : string;
  Protocol : string;
  Env : list string;
  delay : Z;
  directive : string
}.

Definition with_delay (d : Z) (w : workerConfig) : workerConfig :=
  {| Exec := Exec w; Protocol := Protocol w; Env := Env w;
     delay := d; directive := directive w |}.

(** The values the code reads from other packages: the constants of package
    [yggdrasil], the fields of [config.DefaultConfig], the current log level
    and the proxy settings of [httpproxy.FromEnvironment]. *)
Record Config : Type := {
  SysconfDir : string;
  LongName : string;
  LocalstateDir : string;
  ClientID : string;
  SocketAddr : string;
  ExcludeWorkers : gmap string bool;
  LogLevel : string;
  HTTPProxy : string;
  HTTPSProxy : string;
  NoProxy : string
}.

Inductive level : Type := LTrace | LDebug | LInfo | LError.

Inductive notify_kind : Type :=
| InCloseWrite | InMovedTo | InDelete | InMovedFrom.

(** The lines the code logs, by their format string. *)
Inductive message : Type :=
| MsgDelaying (d : Z)
| MsgCannotCreateDir (e : errno)
| MsgCannotWriteFile (e : errno)
| MsgWorkerStopped (pid : Z)
| MsgCannotRestart (e : error)
| MsgExitedWithError (e : error)
| MsgCannotWatch (e : errno)
| MsgReceived (k : notify_kind)
| MsgNewWorker (path : string)
| MsgCannotLoad (e : error)
| MsgSkipExcluded (name : string)
| MsgStarting (name : string)
| MsgCannotKill (name : string) (e : error).

(** What the supervisor does to the outside, in order. *)
Inductive event : Type :=
| EvLog (l : level) (m : message)
| EvSleep (d : Z)
| EvExec (program : string) (args env : list string) (res : Z + errno)
| EvWriteFile (path data : string)
| EvStarted (pid : Z)
| EvStopped (pid : Z)
| EvRestart (worker : workerConfig)
| EvSignal (pid : Z)
| EvRemove (path : string)
| EvGo (worker : workerConfig).

(** How a call of [startWorker] ends: it returns an error or nil, or the
    script of process runs says nothing about the process it creates. *)
Inductive outcome : Type :=
| Done (err : option error)
| Unscripted.

Definition second : Z := 1000000000.

(** Two's complement wrap-around of [int64]. *)
Definition wrap64 (z : Z) : Z := (z + 2 ^ 63) mod 2 ^ 64 - 2 ^ 63.

(** The fast-exit penalty of the exit handler (lines 190 to 192). *)
Definition penalise (systemTime : Z) (w : workerConfig) : workerConfig :=
  if systemTime <? 1 * second
  then with_delay (wrap64 (delay w + 5 * second)) w
  else w.

(** The ceiling of the exit handler (lines 194 to 196). *)
Definition giveUp (w : workerConfig) : workerConfig :=
  if delay w >=? 30 * second then with_delay (-1) w else w.

(** The expression of lines 72 and 297. *)
Definition filenameStem (file : string) : string :=
  Strings.TrimSuffix (Filepath.Base file) (Filepath.Ext file).

Section Supervisor.

(** [toml.Unmarshal] into the three exported fields of a zero
    [workerConfig], or its failure. *)
Variable Unmarshal : string -> option (string * string * list string).

Variable cfg : Config.

(** [loadWorkerConfig]: the pointer (nil is [None]) and the error. *)
Definition loadWorkerConfig (fs : gmap string node) (file : string)
  : option workerConfig * option error :=
  match ReadFile fs file with
  | inr e => (None, Some (Wrap "cannot read file" (ErrOS e)))
  | inl data =>
      match Unmarshal data with
      | None => (None, Some (Wrap "cannot load config" ErrToml))
      | Some (exec, protocol, env) =>
          (Some {| Exec := exec; Protocol := protocol; Env := env;
                   delay := 0; directive := filenameStem file |}, None)
      end
  end.

(** [workerExists]. *)
Definition workerExists (fs : gmap string node) (name : string) : bool :=
  let err :=
    Stat fs (Filepath.Join [SysconfDir cfg; LongName cfg; "workers";
                            name +:+ ".toml"]) in
  negb (IsNotExist err).

(** The initial environment of [startWorker] (lines 90 to 95). *)
Definition baseEnv : list string :=
  [ "PATH=/usr/local/sbin:/usr/local/bin:/usr/sbin:/usr/bin:/sbin:/bin";
    "YGG_CONFIG_DIR=" +:+ Filepath.Join [SysconfDir cfg; LongName cfg];
    "YGG_LOG_LEVEL=" +:+ LogLevel cfg;
    "YGG_CLIENT_ID=" +:+ ClientID cfg ].

(** The proxy variables (lines 97 to 106). *)
Definition proxyEnv : list string :=
  (if String.eqb (HTTPProxy cfg) "" then []
   else ["HTTP_PROXY=" +:+ HTTPProxy cfg]) ++
  (if String.eqb (HTTPSProxy cfg) "" then []
   else ["HTTPS_PROXY=" +:+ HTTPSProxy cfg]) ++
  (if String.eqb (NoProxy cfg) "" then []
   else ["NO_PROXY=" +:+ NoProxy cfg]).

(** [startWorker].  [started] and [stopped] tell whether the callbacks are
    not nil.  The callback given to [startProcess] and the one given to
    [waitProcess] run in goroutines of their own; their events are put
    after those of the caller.  The call returns once [startProcess] has
    returned. *)
Fixpoint startWorker (script : list proc_run) (fs : gmap string node)
  (worker : workerConfig) (started stopped : bool) {struct script}
  : outcome * gmap string node * list event :=
  let argv := Strings.Split (Exec worker) " " in
  let program := hd "" argv in
  let args := if (1 <? length argv)%nat then tl argv else [] in
  let env := baseEnv in
  let env := env ++ proxyEnv in
  if negb (String.eqb (Protocol worker) "grpc")
  then (Done (Some (ErrUnsupportedProtocol (Protocol worker))), fs, [])
  else
  let env := env ++ ["YGG_SOCKET_ADDR=unix:" +:+ SocketAddr cfg] in
  let env := env ++ List.filter validEnvVar (Env worker) in
  if delay worker <? 0
  then (Done (Some (ErrTooManyTimes program)), fs, [])
  else
  let t0 :=
    if delay worker >? 0
    then [EvLog LTrace (MsgDelaying (delay worker)); EvSleep (delay worker)]
    else [] in
  match script with
  | [] => (Unscripted, fs, t0)
  | r :: script' =>
  match startProcess r program args env with
  | inr e =>
      (Done (Some (Wrap "cannot start worker" e)), fs,
       t0 ++ [EvExec program args env (run_start r)])
  | inl pid =>
  let t1 := t0 ++ [EvExec program args env (run_start r)] in
  let pidDirPath :=
    Filepath.Join [LocalstateDir cfg; "run"; LongName cfg; "workers"] in
  match run_mkdir r with
  | Some e => (Done None, fs, t1 ++ [EvLog LError (MsgCannotCreateDir e)])
  | None =>
  let pidFile := Filepath.Join [pidDirPath; directive worker +:+ ".pid"] in
  match run_write r with
  | Some e => (Done None, fs, t1 ++ [EvLog LError (MsgCannotWriteFile e)])
  | None =>
  let fs := <[pidFile := Regular (Strconv.FormatInt pid)]> fs in
  let t2 := t1 ++ [EvWriteFile pidFile (Strconv.FormatInt pid)]
               ++ (if started then [EvStarted pid] else []) in
  let fs := apply_ops (run_during r) fs in
  match waitProcess r pid with
  | inr e => (Done None, fs, t2 ++ [EvLog LError (MsgExitedWithError e)])
  | inl systemTime =>
  let t3 := t2 ++ [EvLog LInfo (MsgWorkerStopped pid)] in
  let worker := penalise systemTime worker in
  let worker := giveUp worker in
  let t4 := t3 ++ (if stopped then [EvStopped pid] else []) in
  if workerExists fs (directive worker)
  then
    match startWorker script' fs worker started stopped with
    | (Done (Some e), fs', tr) =>
        (Done None, fs',
         t4 ++ EvRestart worker :: tr ++ [EvLog LError (MsgCannotRestart e)])
    | (_, fs', tr) => (Done None, fs', t4 ++ EvRestart worker :: tr)
    end
  else (Done None, fs, t4)
  end end end end end.

(** [stopWorker]. *)
Definition stopWorker (k : Kernel) (fs : gmap string node) (name : string)
  : option error * gmap string node * list event :=
  let pidFile :=
    Filepath.Join [LocalstateDir cfg; "run"; LongName cfg; "workers";
                   name +:+ ".pid"] in
  match ReadFile fs pidFile with
  | inr e => (Some (Wrap "cannot read file" (ErrOS e)), fs, [])
  | inl data =>
  match Strconv.ParseInt (Strings.TrimSpace data) with
  | inr e => (Some (Wrap "cannot parse data" (ErrNum e)), fs, [])
  | inl pid =>
  match stopProcess k pid with
  | Some e => (Some (Wrap "cannot stop worker" e), fs, [])
  | None =>
  match Remove k fs pidFile with
  | inr e => (Some (Wrap "cannot remove file" (ErrOS e)), fs, [EvSignal pid])
  | inl fs' => (None, fs', [EvSignal pid; EvRemove pidFile])
  end end end end.

(** A notification of the watched directory, with what happened to the
    file system since the previous one. *)
Record notification : Type := {
  ev_kind : notify_kind;
  ev_path : string;
  ev_before : list fs_op
}.

(** How [watchWorkerDir] ends. *)
Inductive watch_end : Type :=
| WatchFailed
| ChannelClosed
| Panicked.

(** The loop of [watchWorkerDir] over the notifications of the channel.
    The goroutine that runs [startWorker] is recorded by [EvGo]. *)
Fixpoint watchLoop (k : Kernel) (events : list notification)
  (fs : gmap string node) : watch_end * gmap string node * list event :=
  match events with
  | [] => (ChannelClosed, fs, [])
  | e :: rest =>
      let continue fs tr :=
        match watchLoop k rest fs with
        | (fin, fs', tr') => (fin, fs', tr ++ tr')
        end in
      let fs := apply_ops (ev_before e) fs in
      let t0 := [EvLog LDebug (MsgReceived (ev_kind e))] in
      match ev_kind e with
      | InCloseWrite | InMovedTo =>
          let t1 := t0 ++ [EvLog LTrace (MsgNewWorker (ev_path e))] in
          let '(worker, err) := loadWorkerConfig fs (ev_path e) in
          let t2 :=
            t1 ++ match err with
                  | Some er => [EvLog LError (MsgCannotLoad er)]
                  | None => []
                  end in
          match worker with
          | None => (Panicked, fs, t2) (* [worker.directive] on nil, line 283 *)
          | Some worker =>
              if default false (ExcludeWorkers cfg !! directive worker)
              then continue fs
                     (t2 ++ [EvLog LTrace (MsgSkipExcluded (directive worker))])
              else continue fs
                     (t2 ++ [EvLog LDebug (MsgStarting (directive worker));
                             EvGo worker])
          end
      | InDelete | InMovedFrom =>
          let name := filenameStem (ev_path e) in
          match stopWorker k fs name with
          | (Some er, fs', tr) =>
              continue fs' (t0 ++ tr ++ [EvLog LError (MsgCannotKill name er)])
          | (None, fs', tr) => continue fs' (t0 ++ tr)
          end
      end
  end.

(** [watchWorkerDir]; [watch] is the error of [notify.Watch]. *)
Definition watchWorkerDir (k : Kernel) (watch : option errno)
  (events : list notification) (fs : gmap string node)
  : watch_end * gmap string node * list event :=
  match watch with
  | Some e => (WatchFailed, fs, [EvLog LError (MsgCannotWatch e)])
  | None => watchLoop k events fs
  end.

End Supervisor.

(* ===================================================================== *)
(** * The words of the specification *)
(* ===================================================================== *)

(** The base name of a file: what follows its last separator. *)
Fixpoint baseName_spec (path : string) : string :=
  match path with
  | EmptyString => ""
  | String _ p' => if Str.lacks "/" path then path else baseName_spec p'
  end.

(** A name with its extension removed: without its last dot and what
    follows that dot. *)
Fixpoint withoutExtension_spec (name : string) : string :=
  match name with
  | EmptyString => ""
  | String c n' =>
      if Str.lacks "." n'
      then (if Ascii.eqb c "." then "" else name)
      else String c (withoutExtension_spec n')
  end.

(** The filename stem: the base name with its extension removed. *)
Definition filenameStem_spec (path : string) : string :=
  withoutExtension_spec (baseName_spec path).

(** [path] can name a file: it is not empty and does not end with a
    separator. *)
Definition namesFile (path : string) : bool :=
  match Str.rev path with
  | EmptyString => false
  | String c _ => negb (Filepath.IsPathSeparator c)
  end.

(** Projections of a trace. *)
Definition isExec (e : event) : bool :=
  match e with EvExec _ _ _ _ => true | _ => false end.


Definition restartDelays (tr : list event) : list Z :=
  omap (fun e => match e with EvRestart w => Some (delay w) | _ => None end) tr.

Definition launches (tr : list event) : list event := List.filter isExec tr.

(** The pieces of [startWorker]'s command, by name. *)
Definition program (w : workerConfig) : string :=
  hd "" (Strings.Split (Exec w) " ").

Definition args (w : workerConfig) : list string :=
  tl (Strings.Split (Exec w) " ").

Definition configFile (cfg : Config) (name : string) : string :=
  Filepath.Join [SysconfDir cfg; LongName cfg; "workers"; name +:+ ".toml"].

Definition pidFile (cfg : Config) (name : string) : string :=
  Filepath.Join [LocalstateDir cfg; "run"; LongName cfg; "workers";
                 name +:+ ".pid"].

(** The pid file as [startWorker] computes it, with two calls of [Join]. *)
Definition pidFile' (cfg : Config) (name : string) : string :=
  Filepath.Join
    [Filepath.Join [LocalstateDir cfg; "run"; LongName cfg; "workers"];
     name +:+ ".pid"].

(** The part of the child environment that does not depend on the worker's
    [env] entries, and the whole of it. *)
Definition daemonEnv (cfg : Config) : list string :=
  (baseEnv cfg ++ proxyEnv cfg) ++ ["YGG_SOCKET_ADDR=unix:" +:+ SocketAddr cfg].

Definition childEnv (cfg : Config) (w : workerConfig) : list string :=
  daemonEnv cfg ++ List.filter validEnvVar (Env w).

(** The run [r] starts a process with pid [pid], whose pid file is written,
    and which exits after [systemTime] nanoseconds of system time. *)
Definition exits (r : proc_run) (pid systemTime : Z) : Prop :=
  run_start r = inl pid /\ run_mkdir r = None /\ run_write r = None /\
  run_wait r = inl systemTime.

(** The file system when the exit handler of that run looks at it. *)
Definition fsAtExit (cfg : Config) (w : workerConfig) (r : proc_run) (pid : Z)
  (fs : gmap string node) : gmap string node :=
  apply_ops (run_during r)
    (<[pidFile' cfg (directive w) := Regular (Strconv.FormatInt pid)]> fs).

(** The events of such a run up to the decision to restart. *)
Definition runEvents (cfg : Config) (w : workerConfig) (started stopped : bool)
  (pid : Z) : list event :=
  (((((if delay w >? 0
       then [EvLog LTrace (MsgDelaying (delay w)); EvSleep (delay w)]
       else [])
      ++ [EvExec (program w) (args w) (childEnv cfg w) (inl pid)])
     ++ [EvWriteFile (pidFile' cfg (directive w)) (Strconv.FormatInt pid)]
     ++ (if started then [EvStarted pid] else []))
    ++ [EvLog LInfo (MsgWorkerStopped pid)])
   ++ (if stopped then [EvStopped pid] else [])).

(** A run that exits in less than a second of system time while nobody
    touches the file system. *)
Definition fastQuiet (r : proc_run) : Prop :=
  exists pid systemTime,
    exits r pid systemTime /\ systemTime < 1 * second /\ run_during r = [].

(** The delay of the specification after [k] fast exits in a row: the sum,
    capped, and the sentinel once the cap is reached. *)
Definition backoff_spec (k : Z) : Z :=
  let d := Z.min (5 * second * k) (30 * second) in
  if d >=? 30 * second then -1 else d.

(** The tokens of [s] delimited by white space: its maximal runs of bytes
    that are not white space. *)
Fixpoint tokens_spec (s : string) : list string :=
  match s with
  | EmptyString => []
  | String c s' =>
      if Strings.asciiSpace c then tokens_spec s'
      else
        match s' with
        | EmptyString => [String c ""]
        | String d _ =>
            if Strings.asciiSpace d then String c "" :: tokens_spec s'
            else match tokens_spec s' with
                 | tok :: rest => String c tok :: rest
                 | [] => [String c ""]
                 end
        end
  end.

(** [t] holds no white space. *)
Fixpoint noWhite (t : string) : bool :=
  match t with
  | EmptyString => true
  | String c t' => negb (Strings.asciiSpace c) && noWhite t'
  end.

(** [t] is not empty and holds no white space. *)
Definition plainToken (t : string) : bool :=
  negb (String.eqb t "") && noWhite t.

(** A configuration, a parser and workers to evaluate the model on. *)
Module Example.

Definition cfg : Config := {|
  SysconfDir := "/etc";
  LongName := "yggdrasil";
  LocalstateDir := "/var";
  ClientID := "c0ffee";
  SocketAddr := "@yggd";
  ExcludeWorkers := {[ "skipped" := true ]};
  LogLevel := "info";
  HTTPProxy := "";
  HTTPSProxy := "http://proxy:3128";
  NoProxy := ""
|}.

(** The configuration file of the worker [echo]: a TOML document with the
    keys [exec] and [protocol], their values in literal strings. *)
Definition echoToml : string :=
  "exec = '/bin/echo hi'" +:+ String Str.LF
    ("protocol = 'grpc'" +:+ String Str.LF "").

(** The answers of [toml.Unmarshal] on the documents of the examples.  The
    empty document is a TOML document without keys: it is no error and
    leaves the three fields at their zero values.  [echoToml] sets [exec]
    and [protocol] and leaves [env] nil.  Every other text is answered as
    an error, which is right of the texts that are no TOML document, such as
    a bare command line; the examples use no other TOML document, and every
    theorem is stated for all parsers. *)
Definition Unmarshal (data : string) : option (string * string * list string) :=
  if String.eqb data "" then Some ("", "", [])
  else if String.eqb data echoToml then Some ("/bin/echo hi", "grpc", [])
  else None.

Definition echo : workerConfig := {|
  Exec := "/bin/echo hi";
  Protocol := "grpc";
  Env := ["YGG_CLIENT_ID=evil"; "FOO=1"];
  delay := 0;
  directive := "echo"
|}.

Definition fast (pid : Z) : proc_run := {|
  run_start := inl pid;
  run_mkdir := None;
  run_write := None;
  run_during := [];
  run_wait := inl 1000
|}.

Definition installed : gmap string node :=
  {[ "/etc/yggdrasil/workers/echo.toml" := Regular echoToml ]}.

Definition kernel : Kernel := {|
  sigterm := fun pid => if pid =? 4242 then None else Some ESRCH;
  unlink := fun _ => None
|}.

End Example.

(* ===================================================================== *)
(** * Shutdown and the output of the workers *)
(* ===================================================================== *)

Section Shutdown.

Variable cfg : Config.

(** The loop of [stopWorkers] over the entries of the directory. *)
Fixpoint stopEach (k : Kernel) (infos : list string) (fs : gmap string node)
  : option error * gmap string node * list event :=
  match infos with
  | [] => (None, fs, [])
  | name :: rest =>
      if Strings.HasSuffix name ".pid"
      then
        match stopWorker cfg k fs (Strings.TrimSuffix name ".pid") with
        | (Some e, fs', tr) => (Some (Wrap "cannot stop worker" e), fs', tr)
        | (None, fs', tr) =>
            match stopEach k rest fs' with
            | (err, fs'', tr') => (err, fs'', tr ++ tr')
            end
        end
      else stopEach k rest fs
  end.

(** [stopWorkers]; [mkdir] is the error of [os.MkdirAll] and [readdir] the
    result of [ioutil.ReadDir], the names of the entries of the directory
    in the order of the listing. *)
Definition stopWorkers (k : Kernel) (mkdir : option errno)
  (readdir : list string + errno) (fs : gmap string node)
  : option error * gmap string node * list event :=
  match mkdir with
  | Some e => (Some (Wrap "cannot create directory" (ErrOS e)), fs, [])
  | None =>
      match readdir with
      | inr e =>
          (Some (Wrap "cannot read contents of directory" (ErrOS e)), fs, [])
      | inl infos => stopEach k infos fs
      end
  end.

End Shutdown.

(** The two goroutines of [startWorker] that copy the output of a worker
    to the log (lines 131 to 169). *)
Module Pump.

Inductive stream : Type := Stdout | Stderr.

(** The error of a [Read]. *)
Inductive read_error : Type :=
| EOF
| ReadFailed (e : errno).

(** One call of [Read]: the bytes it puts at the start of the buffer and
    its error. *)
Record read : Type := {
  rd_data : string;
  rd_err : option read_error
}.

Inductive pump_event : Type :=
| Traced (program text : string)
| ReachedEOF (s : stream) (program : string)
| CannotRead (s : stream) (e : errno).

Definition NUL : ascii := Str.byte 0.

Fixpoint zeros (n : nat) : string :=
  match n with
  | O => ""
  | S n' => String NUL (zeros n')
  end.

(** The buffer after the read: [make([]byte, 4096)] holds zeros, the read
    overwrites its first bytes. *)
Definition buffer (data : string) : string :=
  data +:+ zeros (4096 - String.length data).

(** The cutset of the two loops: line feed and NUL. *)
Definition cutset : string := String Str.LF (String NUL "").

(** One loop, over the results of its reads: [true] when it has returned,
    [false] when it is still reading after the last read given. *)
Fixpoint pump (s : stream) (program : string) (reads : list read)
  : bool * list pump_event :=
  match reads with
  | [] => (false, [])
  | r :: rest =>
      let t0 :=
        if (0 <? String.length (rd_data r))%nat
        then [Traced program (Strings.TrimRight (buffer (rd_data r)) cutset)]
        else [] in
      match rd_err r with
      | Some EOF => (true, t0 ++ [ReachedEOF s program])
      | Some (ReadFailed e) =>
          match pump s program rest with
          | (fin, tr) => (fin, t0 ++ CannotRead s e :: tr)
          end
      | None =>
          match pump s program rest with
          | (fin, tr) => (fin, t0 ++ tr)
          end
      end
  end.

Definition isEOF (r : read) : bool :=
  match rd_err r with Some EOF => true | _ => false end.

Definition traced (tr : list pump_event) : list string :=
  omap (fun e => match e with Traced _ text => Some text | _ => None end) tr.

End Pump.

(** More projections of a trace. *)
Definition signals (tr : list event) : list Z :=
  omap (fun e => match e with EvSignal pid => Some pid | _ => None end) tr.

Definition writes (tr : list event) : list string :=
  omap (fun e => match e with EvWriteFile _ data => Some data | _ => None end) tr.

Definition created (tr : list event) : list Z :=
  omap (fun e => match e with EvExec _ _ _ (inl pid) => Some pid | _ => None end)
       tr.

Definition sleeps (tr : list event) : list Z :=
  omap (fun e => match e with EvSleep d => Some d | _ => None end) tr.

Definition spawned (tr : list event) : list workerConfig :=
  omap (fun e => match e with EvGo w => Some w | _ => None end) tr.

(** The key of an environment entry: what precedes its first [=]. *)
Fixpoint envKey (entry : string) : option string :=
  match entry with
  | EmptyString => None
  | String c s =>
      if Ascii.eqb c "=" then Some "" else option_map (String c) (envKey s)
  end.

(** The entries of an environment with the key [key]. *)
Definition withKey (key : string) (env : list string) : list string :=
  List.filter
    (fun e => match envKey e with Some k => String.eqb k key | None => false end)
    env.

(** All the bytes of [s] are ASCII white space. *)
Fixpoint allSpace (s : string) : bool :=
  match s with
  | EmptyString => true
  | String c s' => Strings.asciiSpace c && allSpace s'
  end.

(** The delay after exits with the system times [times], from [j]
    penalties: five seconds for each exit of less than a second. *)
Fixpoint penalties (j : Z) (times : list Z) : list Z :=
  match times with
  | [] => []
  | t :: rest =>
      let j' := if t <? 1 * second then j + 1 else j in
      j' :: penalties j' rest
  end.

(** A run that exits after [t] nanoseconds of system time while nobody
    touches the file system. *)
Definition quietExit (r : proc_run) (t : Z) : Prop :=
  exists pid, exits r pid t /\ run_during r = [].

(* ===================================================================== *)
(** * Notions used to state further properties *)
(* ===================================================================== *)

(** An element that [filepath.Clean] does not drop: not empty, not a dot,
    without separator. *)
Definition keptElement (e : string) : Prop :=
  e <> "" /\ e <> "." /\ Str.lacks "/" e = true.

(** A stack of [cleanStep] that another pass leaves as it is: its
    elements are kept ones, and a double dot sits only on double dots, in a
    path that is not rooted. *)
Fixpoint canonical (rooted : bool) (stack : list string) : Prop :=
  match stack with
  | [] => True
  | e :: below =>
      keptElement e /\
      (e = ".." ->
       rooted = false /\
       match below with [] => True | t :: _ => t = ".." end) /\
      canonical rooted below
  end.

(** [path] starts with a separator. *)
Definition rootedOf (path : string) : bool :=
  match path with
  | EmptyString => false
  | String c _ => Filepath.IsPathSeparator c
  end.

(** The path [filepath.Clean] makes of a stack. *)
Definition cleaned (rooted : bool) (stack : list string) : string :=
  let body := Strings.Join (List.rev stack) "/" in
  let out := if rooted then "/" +:+ body else body in
  if String.eqb out "" then "." else out.

(** The value of a decimal numeral read after [acc]. *)
Fixpoint uintValue (acc : Z) (d : Decimal.uint) : Z :=
  match d with
  | Decimal.Nil => acc
  | Decimal.D0 l => uintValue (10 * acc) l
  | Decimal.D1 l => uintValue (10 * acc + 1) l
  | Decimal.D2 l => uintValue (10 * acc + 2) l
  | Decimal.D3 l => uintValue (10 * acc + 3) l
  | Decimal.D4 l => uintValue (10 * acc + 4) l
  | Decimal.D5 l => uintValue (10 * acc + 5) l
  | Decimal.D6 l => uintValue (10 * acc + 6) l
  | Decimal.D7 l => uintValue (10 * acc + 7) l
  | Decimal.D8 l => uintValue (10 * acc + 8) l
  | Decimal.D9 l => uintValue (10 * acc + 9) l
  end.

(** A byte below 128 that is not white space. *)
Definition plainByte (c : ascii) : bool :=
  negb (Strings.asciiSpace c) && (Str.code c <? 128).

(** All the bytes of [s] are such bytes. *)
Fixpoint allPlain (s : string) : bool :=
  match s with
  | EmptyString => true
  | String c s' => plainByte c && allPlain s'
  end.

(** The events of the sleep before a start. *)
Definition sleepEvents (w : workerConfig) : list event :=
  if delay w >? 0
  then [EvLog LTrace (MsgDelaying (delay w)); EvSleep (delay w)]
  else [].

(** The entries of the directory that [stopWorkers] takes for pid records. *)
Definition isPidName (name : string) : bool := Strings.HasSuffix name ".pid".

(** The notifications that make the watcher stop a worker. *)
Definition isRemoval (e : notification) : bool :=
  match ev_kind e with
  | InDelete | InMovedFrom => true
  | InCloseWrite | InMovedTo => false
  end.

(** The reads of a loop up to its first end of file. *)
Fixpoint upToEOF (reads : list Pump.read) : list Pump.read :=
  match reads with
  | [] => []
  | r :: rest => if Pump.isEOF r then [r] else r :: upToEOF rest
  end.

(** All the bytes of [s] are in [cutset]. *)
Fixpoint allIn (cutset s : string) : bool :=
  match s with
  | EmptyString => true
  | String c s' => Strings.inCutset c cutset && allIn cutset s'
  end.

(** The keys an entry of the worker cannot have: those that end with
    [PATH], and those that hold [YGG_] with no line feed after it. *)
Definition reservedKey (key : string) : Prop :=
  (exists p, key = p +:+ "PATH") \/
  (exists p q, key = p +:+ "YGG_" +:+ q /\ Str.no_LF q = true).

(* ===================================================================== *)
(** * The model on concrete inputs *)
(* ===================================================================== *)

Module Examples.

Example Split_repeated : Strings.Split "/bin/echo  hi" " " = ["/bin/echo"; ""; "hi"].
Proof. reflexivity. Qed.

Example Split_empty : Strings.Split "" " " = [""].
Proof. reflexivity. Qed.

Example TrimSuffix_ext : Strings.TrimSuffix "echo.toml" ".toml" = "echo".
Proof. reflexivity. Qed.

Example TrimSpace_ascii :
  Strings.TrimSpace ("  4242 " +:+ String Str.LF "") = "4242".
Proof. reflexivity. Qed.

Example TrimSpace_unicode :
  Strings.TrimSpace
    (String (Str.byte 194) (String (Str.byte 160) "17")
     +:+ String (Str.byte 226) (String (Str.byte 128) (String (Str.byte 168) "")))
  = "17".
Proof. reflexivity. Qed.

Example ParseInt_pid : Strconv.ParseInt "4242" = inl 4242.
Proof. reflexivity. Qed.

Example ParseInt_signed : Strconv.ParseInt "-42" = inl (-42).
Proof. reflexivity. Qed.

Example ParseInt_syntax : Strconv.ParseInt "42x" = inr Strconv.ErrSyntax.
Proof. reflexivity. Qed.

Example ParseInt_range :
  Strconv.ParseInt "9223372036854775808" = inr Strconv.ErrRange.
Proof. reflexivity. Qed.

Example ParseInt_min :
  Strconv.ParseInt "-9223372036854775808" = inl (- 2 ^ 63).
Proof. reflexivity. Qed.

Example FormatInt_pid : Strconv.FormatInt 4242 = "4242".
Proof. reflexivity. Qed.

Example Base_file : Filepath.Base "/etc/yggdrasil/workers/echo.toml" = "echo.toml".
Proof. reflexivity. Qed.

Example Base_slashes : Filepath.Base "///" = "/".
Proof. reflexivity. Qed.

Example Ext_file : Filepath.Ext "/etc/yggdrasil/workers/echo.toml" = ".toml".
Proof. reflexivity. Qed.

Example Ext_dir_dot : Filepath.Ext "/etc/ygg.d/echo" = "".
Proof. reflexivity. Qed.

Example Clean_dots :
  Filepath.Clean "/etc//yggdrasil/./workers/../workers/a.toml"
  = "/etc/yggdrasil/workers/a.toml".
Proof. reflexivity. Qed.

Example Clean_relative : Filepath.Clean "../../a/../.." = "../../..".
Proof. reflexivity. Qed.

Example configFile_echo :
  configFile Example.cfg "echo" = "/etc/yggdrasil/workers/echo.toml".
Proof. reflexivity. Qed.

Example pidFile_echo :
  pidFile Example.cfg "echo" = "/var/run/yggdrasil/workers/echo.pid" /\
  pidFile' Example.cfg "echo" = "/var/run/yggdrasil/workers/echo.pid".
Proof. split; reflexivity. Qed.

Example validEnvVar_plain : validEnvVar "FOO=1" = true.
Proof. reflexivity. Qed.

Example validEnvVar_PATH : validEnvVar "PATH=/tmp" = false.
Proof. reflexivity. Qed.

Example validEnvVar_no_equals : validEnvVar "YGG_CLIENT_ID" = true.
Proof. reflexivity. Qed.

(** Scenario A of the specification: the worker starts, its pid record is
    written, it exits quickly, the delay becomes 5 s and, the file being
    there, the restart sleeps 5 s before it creates the second process. *)
Example scenario_A :
  (startWorker Example.cfg
     [Example.fast 101;
      {| run_start := inr ENOEXEC; run_mkdir := None; run_write := None;
         run_during := []; run_wait := inl 0 |}]
     Example.installed Example.echo false true).2 =
  [EvExec "/bin/echo" ["hi"] (childEnv Example.cfg Example.echo) (inl 101);
   EvWriteFile "/var/run/yggdrasil/workers/echo.pid" "101";
   EvLog LInfo (MsgWorkerStopped 101);
   EvStopped 101;
   EvRestart (with_delay 5000000000 Example.echo);
   EvLog LTrace (MsgDelaying 5000000000);
   EvSleep 5000000000;
   EvExec "/bin/echo" ["hi"] (childEnv Example.cfg Example.echo) (inr ENOEXEC);
   EvLog LError
     (MsgCannotRestart (Wrap "cannot start worker" (ErrOS ENOEXEC)))].
Proof. vm_compute. reflexivity. Qed.

(** Scenario C of the specification: the override of the client id is
    dropped. *)
Example scenario_C :
  childEnv Example.cfg Example.echo =
  ["PATH=/usr/local/sbin:/usr/local/bin:/usr/sbin:/usr/bin:/sbin:/bin";
   "YGG_CONFIG_DIR=/etc/yggdrasil";
   "YGG_LOG_LEVEL=info";
   "YGG_CLIENT_ID=c0ffee";
   "HTTPS_PROXY=http://proxy:3128";
   "YGG_SOCKET_ADDR=unix:@yggd";
   "FOO=1"].
Proof. reflexivity. Qed.

(** A process started by [startWorker] is stopped by [stopWorker] through
    the pid record. *)
Example start_then_stop :
  let '(_, fs, _) :=
    startWorker Example.cfg
      [{| run_start := inl 4242; run_mkdir := None; run_write := None;
          run_during := []; run_wait := inr ECHILD |}]
      Example.installed Example.echo false true in
  (stopWorker Example.cfg Example.kernel fs "echo").2 =
  [EvSignal 4242; EvRemove "/var/run/yggdrasil/workers/echo.pid"].
Proof. vm_compute. reflexivity. Qed.

End Examples.

(* ===================================================================== *)
(** * Facts about byte strings *)
(* ===================================================================== *)

Module StrFacts.
Import Str.

Lemma app_cons (x : ascii) (a b : string) :
  String x a +:+ b = String x (a +:+ b).
Proof. reflexivity. Qed.

Lemma app_nil_l (b : string) : "" +:+ b = b.
Proof. reflexivity. Qed.

Lemma app_nil_r (s : string) : s +:+ "" = s.
Proof.
  induction s as [|c s IH]; [reflexivity|].
  now rewrite app_cons, IH.
Qed.

Lemma app_assoc (a b c : string) : (a +:+ b) +:+ c = a +:+ b +:+ c.
Proof.
  induction a as [|x a IH]; [reflexivity|].
  now rewrite !app_cons, IH.
Qed.

Lemma app_eq_nil (a b : string) : a +:+ b = "" -> a = "" /\ b = "".
Proof. destruct a; [auto | discriminate]. Qed.

Lemma no_LF_app (a b : string) : no_LF (a +:+ b) = no_LF a && no_LF b.
Proof.
  induction a as [|x a IH]; [reflexivity|].
  rewrite app_cons. simpl. now rewrite IH, andb_assoc.
Qed.

Lemma lacks_app (c : ascii) (a b : string) :
  lacks c (a +:+ b) = lacks c a && lacks c b.
Proof.
  induction a as [|x a IH]; [reflexivity|].
  rewrite app_cons. simpl. now rewrite IH, andb_assoc.
Qed.

Lemma length_app (a b : string) :
  String.length (a +:+ b) = (String.length a + String.length b)%nat.
Proof.
  induction a as [|x a IH]; [reflexivity|].
  rewrite app_cons. simpl. now rewrite IH.
Qed.

End StrFacts.

(** Push the constructors of a string through [+:+]. *)
Ltac str_simpl :=
  rewrite ?StrFacts.app_cons, ?StrFacts.app_nil_l in *.

(* ===================================================================== *)
(** * Facts about the regular expressions *)
(* ===================================================================== *)

Module RegexpFacts.
Import Regexp.

Lemma nullable_sound r : nullable r = true -> matches r "".
Proof.
  induction r; simpl; intros H; try discriminate.
  - constructor.
  - apply andb_true_iff in H as [H1 H2].
    change "" with ("" +:+ ""). constructor; auto.
  - apply orb_true_iff in H as [H|H]; [apply MAltL | apply MAltR]; auto.
  - constructor.
Qed.

Lemma nullable_complete r s : matches r s -> s = "" -> nullable r = true.
Proof.
  induction 1; simpl; intros E; try discriminate; auto.
  - apply StrFacts.app_eq_nil in E as [E1 E2].
    rewrite IHmatches1, IHmatches2; auto.
  - rewrite IHmatches; auto.
  - rewrite IHmatches, orb_true_r; auto.
Qed.

Lemma deriv_sound c r : forall s, matches (deriv c r) s -> matches r (String c s).
Proof.
  induction r; simpl; intros s H.
  - inversion H.
  - inversion H.
  - destruct (Ascii.eqb c c0) eqn:E; inversion H; subst.
    apply Ascii.eqb_eq in E; subst. constructor.
  - destruct (Str.is_LF c) eqn:E; inversion H; subst. now constructor.
  - destruct (nullable r1) eqn:N.
    + inversion H; subst.
      * match goal with X : matches (Cat _ _) _ |- _ => inversion X; subst end.
        change (String c (s1 +:+ s2)) with (String c s1 +:+ s2).
        constructor; auto.
      * change (String c s) with ("" +:+ String c s).
        constructor; auto using nullable_sound.
    + inversion H; subst.
      change (String c (s1 +:+ s2)) with (String c s1 +:+ s2).
      constructor; auto.
  - inversion H; subst; [apply MAltL | apply MAltR]; auto.
  - inversion H; subst.
    change (String c (s1 +:+ s2)) with (String c s1 +:+ s2).
    constructor; auto.
Qed.

Lemma deriv_complete r s :
  matches r s -> forall c s', s = String c s' -> matches (deriv c r) s'.
Proof.
  induction 1; simpl; intros x s' E; try discriminate.
  - injection E as -> <-. rewrite Ascii.eqb_refl. constructor.
  - injection E as -> <-. rewrite H. constructor.
  - destruct s1 as [|y s1]; str_simpl.
    + subst s2. rewrite (nullable_complete _ _ H eq_refl).
      apply MAltR. eauto.
    + injection E as -> <-.
      destruct (nullable r1); [apply MAltL|]; constructor; eauto.
  - apply MAltL; eauto.
  - apply MAltR; eauto.
  - destruct s1 as [|y s1]; str_simpl.
    + eauto.
    + injection E as -> <-. constructor; eauto.
Qed.

Lemma matchPrefix_spec r : forall s,
  matchPrefix r s = true <-> exists m c, s = m +:+ c /\ matches r m.
Proof.
  intros s; revert r. induction s as [|x s IH]; intros r; simpl.
  - rewrite orb_false_r. split.
    + intros N. exists "", "". split; auto using nullable_sound.
    + intros (m & c & E & M). symmetry in E.
      apply StrFacts.app_eq_nil in E as [-> _]. eapply nullable_complete; eauto.
  - rewrite orb_true_iff, IH. split.
    + intros [N | (m & c & -> & M)].
      * exists "", (String x s). split; auto using nullable_sound.
      * exists (String x m), c. split; auto using deriv_sound.
    + intros (m & c & E & M). destruct m as [|y m]; str_simpl.
      * left. eapply nullable_complete; eauto.
      * injection E as <- ->. right. exists m, c.
        split; [reflexivity|]. eapply deriv_complete; eauto.
Qed.

(** [Match] is the unanchored search for the declarative language. *)
Lemma Match_spec r : forall s,
  Match r s = true <-> exists a m c, s = a +:+ m +:+ c /\ matches r m.
Proof.
  induction s as [|x s IH]; cbn [Match].
  - rewrite orb_false_r, matchPrefix_spec. split.
    + intros (m & c & E & M). exists "", m, c. auto.
    + intros (a & m & c & E & M). destruct a; [|discriminate].
      str_simpl. eauto.
  - rewrite orb_true_iff, matchPrefix_spec, IH. split.
    + intros [(m & c & E & M) | (a & m & c & -> & M)].
      * exists "", m, c. auto.
      * exists (String x a), m, c. auto.
    + intros (a & m & c & E & M). destruct a as [|y a]; str_simpl.
      * left. eauto.
      * injection E as <- ->. right. eauto.
Qed.

Lemma matches_Eps s : matches Eps s <-> s = "".
Proof. split; [inversion 1; auto | intros ->; constructor]. Qed.

Lemma matches_Lit_Cat c r s :
  matches (Cat (Lit c) r) s <-> exists s', s = String c s' /\ matches r s'.
Proof.
  split.
  - inversion 1; subst.
    match goal with X : matches (Lit _) _ |- _ => inversion X; subst end.
    str_simpl. eauto.
  - intros (s' & -> & M).
    change (String c s') with (String c "" +:+ s'). constructor; auto.
    constructor.
Qed.

Lemma matches_Star_Dot s : matches (Star Dot) s <-> Str.no_LF s = true.
Proof.
  split.
  - intros M. remember (Star Dot) as r eqn:E.
    induction M; inversion E; subst; [reflexivity|].
    inversion M1; subst. str_simpl. simpl.
    match goal with X : Str.is_LF _ = false |- _ => rewrite X end.
    simpl. auto.
  - induction s as [|c s IH]; simpl; intros H; [constructor|].
    apply andb_true_iff in H as [H1 H2].
    change (String c s) with (String c "" +:+ s).
    constructor; auto. constructor. now apply negb_true_iff.
Qed.

Lemma matches_Star_Dot_Cat r s :
  matches (Cat (Star Dot) r) s <->
  exists b s', s = b +:+ s' /\ Str.no_LF b = true /\ matches r s'.
Proof.
  split.
  - inversion 1; subst. do 2 eexists. split; [reflexivity|].
    split; [now apply matches_Star_Dot | assumption].
  - intros (b & s' & -> & B & M). constructor; auto.
    now apply matches_Star_Dot.
Qed.

(** The language of [PATH=.*]. *)
Lemma matches_PATH m :
  matches (MustCompile "PATH=.*") m <->
  exists t, m = "PATH=" +:+ t /\ Str.no_LF t = true.
Proof.
  cbn [MustCompile Ascii.eqb Bool.eqb].
  repeat setoid_rewrite matches_Lit_Cat.
  setoid_rewrite matches_Star_Dot_Cat. setoid_rewrite matches_Eps.
  split.
  - intros (s1 & -> & s2 & -> & s3 & -> & s4 & -> & s5 & -> & b & s' & -> & B & ->).
    exists b. now rewrite StrFacts.app_nil_r.
  - intros (t & -> & B). repeat (eexists; split; [reflexivity|]).
    exists t, "". now rewrite StrFacts.app_nil_r.
Qed.

(** The language of [YGG_.*=.*]. *)
Lemma matches_YGG m :
  matches (MustCompile "YGG_.*=.*") m <->
  exists b t, m = "YGG_" +:+ b +:+ "=" +:+ t /\
              Str.no_LF b = true /\ Str.no_LF t = true.
Proof.
  cbn [MustCompile Ascii.eqb Bool.eqb].
  repeat (setoid_rewrite matches_Lit_Cat
          || setoid_rewrite matches_Star_Dot_Cat).
  setoid_rewrite matches_Eps.
  split.
  - intros (s1 & -> & s2 & -> & s3 & -> & s4 & -> & b & s5 & -> & B
            & s6 & -> & t & s7 & -> & T & ->).
    exists b, t. now rewrite StrFacts.app_nil_r.
  - intros (b & t & -> & B & T). repeat (eexists; split; [reflexivity|]).
    exists b, ("=" +:+ t). repeat split; auto.
    exists t. split; [reflexivity|]. exists t, "". now rewrite StrFacts.app_nil_r.
Qed.

Lemma Match_PATH s :
  Match (MustCompile "PATH=.*") s = true <-> Str.contains s "PATH=".
Proof.
  rewrite Match_spec. unfold Str.contains. split.
  - intros (a & m & c & -> & M). apply matches_PATH in M as (t & -> & _).
    exists a, (t +:+ c). now rewrite !StrFacts.app_assoc.
  - intros (a & c & ->). exists a, "PATH=", c. split; [reflexivity|].
    apply matches_PATH. now exists "".
Qed.

Lemma Match_YGG s :
  Match (MustCompile "YGG_.*=.*") s = true <->
  exists a b c, s = a +:+ "YGG_" +:+ b +:+ "=" +:+ c /\ Str.no_LF b = true.
Proof.
  rewrite Match_spec. split.
  - intros (a & m & c & -> & M).
    apply matches_YGG in M as (b & t & -> & B & _).
    exists a, b, (t +:+ c). split; [|assumption].
    now rewrite !StrFacts.app_assoc.
  - intros (a & b & c & -> & B).
    exists a, ("YGG_" +:+ b +:+ "="), c. split.
    + now rewrite !StrFacts.app_assoc.
    + apply matches_YGG. exists b, "". now rewrite StrFacts.app_nil_r.
Qed.

(** What [validEnvVar] rejects. *)
Lemma validEnvVar_false val :
  validEnvVar val = false <->
  Str.contains val "PATH=" \/
  exists a b c, val = a +:+ "YGG_" +:+ b +:+ "=" +:+ c /\ Str.no_LF b = true.
Proof.
  unfold validEnvVar, envPatterns. cbn [existsb].
  rewrite negb_false_iff, orb_false_r, orb_true_iff.
  now rewrite Match_PATH, Match_YGG.
Qed.

End RegexpFacts.

(* ===================================================================== *)
(** * Facts about [strings] and [path/filepath] *)
(* ===================================================================== *)

Module PathFacts.
Import Str StrFacts Strings Filepath.

Lemma rev_cons (x : ascii) (s : string) :
  rev (String x s) = rev s +:+ String x "".
Proof. reflexivity. Qed.

Lemma rev_app (a b : string) : rev (a +:+ b) = rev b +:+ rev a.
Proof.
  induction a as [|x a IH]; str_simpl.
  - now rewrite app_nil_r.
  - now rewrite !rev_cons, IH, app_assoc.
Qed.

Lemma rev_involutive (s : string) : rev (rev s) = s.
Proof.
  induction s as [|x s IH]; [reflexivity|].
  rewrite rev_cons, rev_app, IH. reflexivity.
Qed.

Lemma lacks_rev (c : ascii) (s : string) : lacks c (rev s) = lacks c s.
Proof.
  induction s as [|x s IH]; [reflexivity|].
  rewrite rev_cons, lacks_app, IH. cbn [lacks].
  rewrite andb_true_r. apply andb_comm.
Qed.

Lemma rev_eq_nil (s : string) : rev s = "" -> s = "".
Proof.
  destruct s as [|x s]; [reflexivity|]. rewrite rev_cons. intros H.
  apply app_eq_nil in H as [_ H]. discriminate.
Qed.

Lemma untilSeparator_app (a b : string) :
  untilSeparator (a +:+ b) =
  if lacks "/" a then a +:+ untilSeparator b else untilSeparator a.
Proof.
  induction a as [|x a IH]; [reflexivity|].
  str_simpl. cbn [untilSeparator lacks]. unfold IsPathSeparator.
  destruct (Ascii.eqb x "/"); cbn [negb andb]; [reflexivity|].
  rewrite IH. destruct (lacks "/" a); reflexivity.
Qed.

Lemma untilSeparator_lacks (s : string) : lacks "/" (untilSeparator s) = true.
Proof.
  induction s as [|x s IH]; [reflexivity|].
  cbn [untilSeparator]. unfold IsPathSeparator.
  destruct (Ascii.eqb x "/") eqn:E; [reflexivity|].
  cbn [lacks]. now rewrite E, IH.
Qed.

Lemma baseName_spec_lacks (s : string) :
  lacks "/" s = true -> baseName_spec s = s.
Proof. destruct s; [reflexivity|]. cbn [baseName_spec]. now intros ->. Qed.

(** The base name of the specification is the last element that
    [filepath.Base] scans from the end. *)
Lemma baseName_spec_rev (path : string) :
  baseName_spec path = rev (untilSeparator (rev path)).
Proof.
  induction path as [|x p IH]; [reflexivity|].
  cbn [baseName_spec]. rewrite rev_cons, untilSeparator_app, lacks_rev.
  cbn [lacks untilSeparator]. unfold IsPathSeparator.
  destruct (Ascii.eqb x "/") eqn:E; cbn [negb andb].
  - destruct (lacks "/" p) eqn:L.
    + rewrite app_nil_r, rev_involutive. now apply baseName_spec_lacks.
    + exact IH.
  - destruct (lacks "/" p) eqn:L.
    + rewrite rev_app, rev_involutive. reflexivity.
    + exact IH.
Qed.

Lemma extFrom_untilSeparator (r : string) : forall acc,
  extFrom r acc = extFrom (untilSeparator r) acc.
Proof.
  induction r as [|x r IH]; intros acc; [reflexivity|].
  cbn [untilSeparator extFrom].
  destruct (IsPathSeparator x) eqn:E; [reflexivity|].
  cbn [extFrom]. rewrite E. destruct (Ascii.eqb x "."); auto.
Qed.

Lemma extFrom_lacks (x : string) : forall r acc,
  lacks "." x = true -> lacks "/" x = true ->
  extFrom (rev x +:+ r) acc = extFrom r (x +:+ acc).
Proof.
  induction x as [|c x IH]; intros r acc; [reflexivity|].
  cbn [lacks]. intros [D1 D2]%andb_true_iff [S1 S2]%andb_true_iff.
  rewrite rev_cons, app_assoc. str_simpl. rewrite IH by assumption.
  cbn [extFrom]. unfold IsPathSeparator.
  apply negb_true_iff in D1, S1. now rewrite D1, S1.
Qed.

Lemma split_last_dot (e : string) :
  lacks "." e = true \/
  exists n x, e = n +:+ String "." x /\ lacks "." x = true.
Proof.
  induction e as [|c e IH]; [now left|].
  destruct IH as [L | (n & x & -> & L)].
  - cbn [lacks]. destruct (Ascii.eqb c ".") eqn:E.
    + apply Ascii.eqb_eq in E as ->. right. now exists "", e.
    + left. now rewrite L.
  - right. now exists (String c n), x.
Qed.

Lemma eqb_app_cons_false (c : ascii) (n suf : string) :
  String.eqb (String c (n +:+ suf)) suf = false.
Proof.
  apply String.eqb_neq. intros H.
  apply (f_equal String.length) in H. cbn [String.length] in H.
  rewrite length_app in H. lia.
Qed.

Lemma stripSuffix_app (suf n : string) : stripSuffix suf (n +:+ suf) = Some n.
Proof.
  induction n as [|c n IH]; str_simpl.
  - destruct suf; cbn [stripSuffix]; now rewrite String.eqb_refl.
  - cbn [stripSuffix]. now rewrite eqb_app_cons_false, IH.
Qed.

Lemma TrimSuffix_app (suf n : string) : TrimSuffix (n +:+ suf) suf = n.
Proof. unfold TrimSuffix. now rewrite stripSuffix_app. Qed.

Lemma withoutExtension_lacks (e : string) :
  lacks "." e = true -> withoutExtension_spec e = e.
Proof.
  destruct e as [|c e]; [reflexivity|]. cbn [lacks withoutExtension_spec].
  intros [D1 D2]%andb_true_iff. apply negb_true_iff in D1. now rewrite D1, D2.
Qed.

Lemma withoutExtension_app (n x : string) :
  lacks "." x = true -> withoutExtension_spec (n +:+ String "." x) = n.
Proof.
  intros L. induction n as [|c n IH]; str_simpl; cbn [withoutExtension_spec].
  - now rewrite L.
  - rewrite lacks_app. cbn [lacks Ascii.eqb Bool.eqb negb andb].
    rewrite andb_false_r. now rewrite IH.
Qed.

(** On a path that names a file, the expression of the code computes the
    filename stem of the specification. *)
Lemma filenameStem_spec_ok (file : string) :
  namesFile file = true -> filenameStem file = filenameStem_spec file.
Proof.
  unfold namesFile, filenameStem, filenameStem_spec, Base, Ext.
  destruct (rev file) as [|c r] eqn:R; [discriminate|]. intros Hc.
  apply negb_true_iff in Hc.
  assert (file <> "") as NE by (intros ->; discriminate).
  apply String.eqb_neq in NE. rewrite NE.
  cbn [dropSeparators]. rewrite Hc.
  rewrite extFrom_untilSeparator, <- R, <- baseName_spec_rev.
  assert (untilSeparator (rev file) = rev (baseName_spec file)) as U.
  { rewrite baseName_spec_rev, rev_involutive. reflexivity. }
  assert (lacks "/" (baseName_spec file) = true) as LS.
  { rewrite baseName_spec_rev, lacks_rev. apply untilSeparator_lacks. }
  assert (baseName_spec file <> "") as NB.
  { intros H. rewrite H in U. rewrite R in U. cbn [untilSeparator] in U.
    rewrite Hc in U. discriminate. }
  apply String.eqb_neq in NB. rewrite NB, U.
  set (e := baseName_spec file) in *.
  destruct (split_last_dot e) as [L | (n & x & E & L)].
  - rewrite <- (app_nil_r (rev e)), extFrom_lacks by assumption.
    cbn [extFrom]. rewrite withoutExtension_lacks by assumption.
    rewrite <- (app_nil_r e) at 1. apply TrimSuffix_app.
  - rewrite E in LS |- *. rewrite lacks_app in LS.
    apply andb_true_iff in LS as [_ LS]. cbn [lacks] in LS.
    apply andb_true_iff in LS as [_ LS].
    rewrite rev_app, rev_cons, app_assoc. str_simpl.
    rewrite extFrom_lacks by assumption. cbn [extFrom].
    unfold IsPathSeparator. cbn [Ascii.eqb Bool.eqb].
    rewrite app_nil_r, TrimSuffix_app.
    symmetry. now apply withoutExtension_app.
Qed.

Lemma Split_nonempty (s : string) (c : ascii) : Split s c <> [].
Proof.
  destruct s as [|x s]; cbn [Split]; [discriminate|].
  destruct (Ascii.eqb x c); [discriminate|].
  destruct (Split s c); discriminate.
Qed.

Lemma Join_cons (x y : string) (l : list string) (sep : string) :
  Strings.Join (x :: y :: l) sep = x +:+ sep +:+ Strings.Join (y :: l) sep.
Proof. reflexivity. Qed.

(** Joining the pieces with the separator gives the string back. *)
Lemma Split_Join (s : string) (c : ascii) : Strings.Join (Split s c) (String c "") = s.
Proof.
  induction s as [|x s IH]; [reflexivity|]. cbn [Split].
  pose proof (Split_nonempty s c) as NE.
  destruct (Ascii.eqb x c) eqn:E.
  - apply Ascii.eqb_eq in E as ->.
    destruct (Split s c) as [|y l]; [congruence|].
    rewrite Join_cons, IH. reflexivity.
  - destruct (Split s c) as [|y [|z l]]; [congruence | |].
    + cbn [Strings.Join] in *. now rewrite IH.
    + rewrite Join_cons in *. str_simpl. now rewrite IH.
Qed.

(** No piece contains the separator. *)
Lemma Split_lacks (s : string) (c : ascii) :
  Forall (fun t => lacks c t = true) (Split s c).
Proof.
  induction s as [|x s IH]; cbn [Split]; [repeat constructor|].
  destruct (Ascii.eqb x c) eqn:E; [constructor; auto|].
  destruct (Split s c) as [|y l]; [repeat constructor; cbn; now rewrite E|].
  inversion IH; subst. constructor; [|assumption].
  cbn [lacks]. now rewrite E.
Qed.

Lemma Split_single (x : string) (c : ascii) :
  lacks c x = true -> Split x c = [x].
Proof.
  induction x as [|d x IH]; [reflexivity|]. cbn [lacks Split].
  intros [D L]%andb_true_iff. apply negb_true_iff in D.
  now rewrite D, IH.
Qed.

Lemma Split_app_sep (x rest : string) (c : ascii) :
  lacks c x = true -> Split (x +:+ String c rest) c = x :: Split rest c.
Proof.
  induction x as [|d x IH]; str_simpl; cbn [lacks Split].
  - now rewrite Ascii.eqb_refl.
  - intros [D L]%andb_true_iff. apply negb_true_iff in D.
    now rewrite D, IH.
Qed.

(** The pieces are the only such list. *)
Lemma Split_unique (c : ascii) (l : list string) :
  l <> [] -> Forall (fun t => lacks c t = true) l ->
  Split (Strings.Join l (String c "")) c = l.
Proof.
  induction l as [|x [|y l] IH]; intros NE F; [congruence | |].
  - inversion F; subst. now apply Split_single.
  - inversion F; subst. rewrite Join_cons. str_simpl.
    rewrite Split_app_sep by assumption. f_equal. now apply IH.
Qed.

Lemma tokens_spec_single (x : string) :
  plainToken x = true -> tokens_spec x = [x].
Proof.
  unfold plainToken. induction x as [|c x IH]; [discriminate|].
  cbn [String.eqb negb andb noWhite tokens_spec].
  intros [C W]%andb_true_iff. apply negb_true_iff in C. rewrite C.
  destruct x as [|d x]; [reflexivity|].
  pose proof W as W'. cbn [noWhite] in W'.
  apply andb_true_iff in W' as [D _]. apply negb_true_iff in D. rewrite D.
  now rewrite IH.
Qed.

Lemma tokens_spec_app (x rest : string) :
  plainToken x = true ->
  tokens_spec (x +:+ String " " rest) = x :: tokens_spec rest.
Proof.
  unfold plainToken. induction x as [|c x IH]; [discriminate|].
  cbn [String.eqb negb andb noWhite]. str_simpl. cbn [tokens_spec].
  intros [C W]%andb_true_iff. apply negb_true_iff in C. rewrite C.
  destruct x as [|d x]; str_simpl; [reflexivity|].
  pose proof W as W'. cbn [noWhite] in W'.
  apply andb_true_iff in W' as [D _]. apply negb_true_iff in D. rewrite D.
  now rewrite IH by exact W.
Qed.

(** Plain tokens joined by single spaces are the tokens of the
    specification. *)
Lemma tokens_spec_Join (l : list string) :
  Forall (fun t => plainToken t = true) l ->
  tokens_spec (Strings.Join l " ") = l.
Proof.
  induction l as [|x [|y l] IH]; intros F; [reflexivity | |].
  - inversion F; subst. now apply tokens_spec_single.
  - inversion F; subst. rewrite Join_cons. str_simpl.
    rewrite tokens_spec_app by assumption. f_equal. now apply IH.
Qed.

End PathFacts.

(* ===================================================================== *)
(** * Facts about the supervisor *)
(* ===================================================================== *)

Section SupervisorFacts.

Variable cfg : Config.

Lemma startWorker_unsupported script fs w st sp :
  Protocol w <> "grpc" ->
  startWorker cfg script fs w st sp =
  (Done (Some (ErrUnsupportedProtocol (Protocol w))), fs, []).
Proof.
  intros H. apply String.eqb_neq in H.
  destruct script; cbn [startWorker]; rewrite H; reflexivity.
Qed.

Lemma startWorker_negative script fs w st sp :
  Protocol w = "grpc" -> delay w < 0 ->
  startWorker cfg script fs w st sp =
  (Done (Some (ErrTooManyTimes (program w))), fs, []).
Proof.
  intros H D. apply String.eqb_eq in H. apply Z.ltb_lt in D.
  destruct script; cbn [startWorker]; rewrite H, D; reflexivity.
Qed.

Lemma args_tl w :
  (if (1 <? length (Strings.Split (Exec w) " "))%nat
   then tl (Strings.Split (Exec w) " ") else []) = args w.
Proof.
  unfold args. destruct (Strings.Split (Exec w) " ") as [|x [|y l]]; reflexivity.
Qed.

Lemma startWorker_exit r rest fs w st sp pid t :
  Protocol w = "grpc" -> 0 <= delay w -> exits r pid t ->
  startWorker cfg (r :: rest) fs w st sp =
  let fs' := fsAtExit cfg w r pid fs in
  let w' := giveUp (penalise t w) in
  if workerExists cfg fs' (directive w')
  then
    match startWorker cfg rest fs' w' st sp with
    | (Done (Some e), fs'', tr) =>
        (Done None, fs'',
         runEvents cfg w st sp pid
           ++ EvRestart w' :: tr ++ [EvLog LError (MsgCannotRestart e)])
    | (_, fs'', tr) =>
        (Done None, fs'', runEvents cfg w st sp pid ++ EvRestart w' :: tr)
    end
  else (Done None, fs', runEvents cfg w st sp pid).
Proof.
  intros H D (E1 & E2 & E3 & E4).
  apply String.eqb_eq in H. apply Z.ltb_ge in D.
  cbn [startWorker]. rewrite H, D. cbn [negb].
  unfold startProcess, waitProcess. rewrite E1, E2, E3, E4.
  rewrite args_tl. reflexivity.
Qed.

Lemma exit_handler_fields t w :
  let w' := giveUp (penalise t w) in
  Exec w' = Exec w /\ Protocol w' = Protocol w /\ Env w' = Env w /\
  directive w' = directive w.
Proof.
  unfold giveUp, penalise.
  destruct (t <? 1 * second); cbn [delay with_delay];
    match goal with |- context [if ?b then _ else _] => destruct b end;
    cbn; auto.
Qed.

Lemma exit_handler_command t w :
  let w' := giveUp (penalise t w) in
  program w' = program w /\ args w' = args w /\ childEnv cfg w' = childEnv cfg w.
Proof.
  intros w'. destruct (exit_handler_fields t w) as (E1 & E2 & E3 & E4).
  fold w' in E1, E2, E3, E4.
  unfold program, args, childEnv. now rewrite E1, E3.
Qed.

(** Every process of a call of [startWorker], restarts included, is created
    with the command and the environment of the worker. *)
Lemma exec_events script : forall fs w st sp p a env res,
  In (EvExec p a env res) (startWorker cfg script fs w st sp).2 ->
  p = program w /\ a = args w /\ env = childEnv cfg w.
Proof.
  induction script as [|r rest IH]; intros fs w st sp p a env res;
    cbn [startWorker]; rewrite ?args_tl;
    destruct (negb (String.eqb (Protocol w) "grpc")); cbn [snd];
    try (now intros []);
    destruct (delay w <? 0); cbn [snd]; try (now intros []).
  - destruct (delay w >? 0); cbn; intuition discriminate.
  - fold (program w) (daemonEnv cfg) (childEnv cfg w).
    destruct (exit_handler_command
                (match run_wait r with inl t => t | inr _ => 0 end) w)
      as (P1 & P2 & P3).
    pose proof (IH (apply_ops (run_during r)
                      (<[Filepath.Join
                           [Filepath.Join [LocalstateDir cfg; "run";
                                           LongName cfg; "workers"];
                            directive w +:+ ".pid"]
                         := Regular (Strconv.FormatInt
                              (match run_start r with inl q => q | inr _ => 0 end))]> fs))
                  (giveUp (penalise
                     (match run_wait r with inl t => t | inr _ => 0 end) w))
                  st sp p a env res) as IH'.
    unfold startProcess, waitProcess.
    destruct (run_start r) as [pid|e]; cbn [snd].
    2:{ rewrite in_app_iff. destruct (delay w >? 0); cbn;
        intuition (try discriminate); congruence. }
    destruct (run_mkdir r); cbn [snd].
    { rewrite !in_app_iff. destruct (delay w >? 0); cbn;
        intuition (try discriminate); congruence. }
    destruct (run_write r); cbn [snd].
    { rewrite !in_app_iff. destruct (delay w >? 0); cbn;
        intuition (try discriminate); congruence. }
    destruct (run_wait r) as [t|e]; cbn [snd].
    2:{ rewrite !in_app_iff. destruct (delay w >? 0), st; cbn;
        intuition (try discriminate); congruence. }
    rewrite P1, P2, P3 in IH'.
    destruct (workerExists cfg _ _); cbn [snd].
    2:{ rewrite !in_app_iff. destruct (delay w >? 0), st, sp; cbn;
        intuition (try discriminate); congruence. }
    destruct (startWorker cfg rest _ _ st sp) as [[o fs''] tr].
    cbn [snd] in IH'.
    destruct o as [[e|]|]; cbn [snd]; intros H;
      rewrite !in_app_iff in H; cbn [In] in H;
      rewrite ?in_app_iff in H; cbn [In] in H;
      destruct (delay w >? 0), st, sp; cbn [In] in H;
      intuition (try discriminate); congruence.
Qed.

Lemma first_launch r rest fs w st sp :
  Protocol w = "grpc" -> 0 <= delay w ->
  In (EvExec (program w) (args w) (childEnv cfg w) (run_start r))
     (startWorker cfg (r :: rest) fs w st sp).2.
Proof.
  intros H D. apply String.eqb_eq in H. apply Z.ltb_ge in D.
  cbn [startWorker]. rewrite H, D, args_tl. cbn [negb].
  fold (program w) (daemonEnv cfg) (childEnv cfg w).
  unfold startProcess, waitProcess.
  destruct (run_start r) as [pid|e]; cbn [snd].
  2:{ rewrite in_app_iff. cbn [In]; auto 12. }
  destruct (run_mkdir r); cbn [snd].
  { rewrite !in_app_iff. cbn [In]; auto 12. }
  destruct (run_write r); cbn [snd].
  { rewrite !in_app_iff. cbn [In]; auto 12. }
  destruct (run_wait r) as [t|e]; cbn [snd].
  2:{ rewrite !in_app_iff. cbn [In]; auto 12. }
  destruct (workerExists cfg _ _); cbn [snd].
  2:{ rewrite !in_app_iff. cbn [In]; auto 12. }
  destruct (startWorker cfg rest _ _ st sp) as [[[[e|]|] fs''] tr];
    cbn [snd]; rewrite !in_app_iff; cbn [In]; rewrite ?in_app_iff; auto 12.
Qed.

Lemma wrap64_small z : - 2 ^ 63 <= z < 2 ^ 63 -> wrap64 z = z.
Proof. intros H. unfold wrap64. rewrite Z.mod_small; lia. Qed.

Lemma Stat_insert_regular (fs : gmap string node) p q d :
  Stat fs p = None -> Stat (<[q := Regular d]> fs) p = None.
Proof.
  unfold Stat. destruct (decide (q = p)) as [->|NE].
  - now rewrite lookup_insert_eq.
  - now rewrite lookup_insert_ne.
Qed.

Lemma workerExists_Stat (fs : gmap string node) name :
  workerExists cfg fs name = negb (IsNotExist (Stat fs (configFile cfg name))).
Proof. reflexivity. Qed.

Lemma restartDelays_app a b :
  restartDelays (a ++ b) = restartDelays a ++ restartDelays b.
Proof. apply omap_app. Qed.

Lemma restartDelays_runEvents w st sp pid :
  restartDelays (runEvents cfg w st sp pid) = [].
Proof. unfold runEvents. destruct (delay w >? 0), st, sp; reflexivity. Qed.

Lemma launches_app a b : launches (a ++ b) = launches a ++ launches b.
Proof. apply List.filter_app. Qed.

Lemma launches_runEvents w st sp pid :
  launches (runEvents cfg w st sp pid) =
  [EvExec (program w) (args w) (childEnv cfg w) (inl pid)].
Proof. unfold runEvents. destruct (delay w >? 0), st, sp; reflexivity. Qed.


(** The exit handler after a fast exit, on a delay of [j] penalties. *)
Lemma fast_exit_delay t w j :
  t < 1 * second -> delay w = 5 * second * j -> 0 <= j <= 5 ->
  delay (penalise t w) = Z.min (5 * second * (j + 1)) (30 * second) /\
  delay (giveUp (penalise t w)) = backoff_spec (j + 1) /\
  (j < 5 -> delay (giveUp (penalise t w)) = 5 * second * (j + 1)) /\
  (j = 5 -> delay (giveUp (penalise t w)) = -1).
Proof.
  intros T D J. unfold giveUp, penalise, backoff_spec.
  apply Z.ltb_lt in T. rewrite T. cbn [delay with_delay]. rewrite D.
  rewrite wrap64_small by (unfold second; lia).
  replace (5 * second * j + 5 * second) with (5 * second * (j + 1)) by lia.
  rewrite Z.min_l by (unfold second; lia).
  destruct (5 * second * (j + 1) >=? 30 * second) eqn:G; cbn [delay with_delay].
  - repeat split; auto. intros J'. apply Z.geb_le in G. unfold second in *. lia.
  - repeat split; auto. intros ->. rewrite Z.geb_leb in G.
    apply Z.leb_gt in G. unfold second in G. lia.
Qed.

Lemma fastQuiet_exit r fs w st sp rest :
  Protocol w = "grpc" -> 0 <= delay w -> fastQuiet r ->
  Stat fs (configFile cfg (directive w)) = None ->
  exists pid t fs',
    t < 1 * second /\
    Stat fs' (configFile cfg (directive w)) = None /\
    startWorker cfg (r :: rest) fs w st sp =
    match startWorker cfg rest fs' (giveUp (penalise t w)) st sp with
    | (Done (Some e), fs'', tr) =>
        (Done None, fs'',
         runEvents cfg w st sp pid
           ++ EvRestart (giveUp (penalise t w)) :: tr
           ++ [EvLog LError (MsgCannotRestart e)])
    | (_, fs'', tr) =>
        (Done None, fs'',
         runEvents cfg w st sp pid ++ EvRestart (giveUp (penalise t w)) :: tr)
    end.
Proof.
  intros P D (pid & t & X & T & Q) S.
  exists pid, t, (fsAtExit cfg w r pid fs).
  assert (Stat (fsAtExit cfg w r pid fs) (configFile cfg (directive w)) = None)
    as S'.
  { unfold fsAtExit. rewrite Q. cbn [apply_ops fold_left].
    now apply Stat_insert_regular. }
  repeat split; auto.
  rewrite (startWorker_exit r rest fs w st sp pid t P D X). cbv zeta.
  destruct (exit_handler_fields t w) as (_ & _ & _ & ->).
  rewrite workerExists_Stat, S'. reflexivity.
Qed.

(** The delays of the restarts along a chain of fast exits. *)
Lemma fast_chain rest st sp : forall script fs w j,
  Protocol w = "grpc" -> delay w = 5 * second * j -> 0 <= j ->
  j + Z.of_nat (length script) <= 6 ->
  Forall fastQuiet script ->
  Stat fs (configFile cfg (directive w)) = None ->
  take (length script)
       (restartDelays (startWorker cfg (script ++ rest) fs w st sp).2) =
  map (fun k => backoff_spec (j + Z.of_nat k)) (seq 1 (length script)).
Proof.
  induction script as [|r script IH]; intros fs w j P D J L F S;
    [reflexivity|].
  inversion F as [|? ? Fr Fs]; subst. cbn [length] in L.
  assert (0 <= delay w) as D0 by (rewrite D; unfold second; lia).
  destruct (fastQuiet_exit r fs w st sp (script ++ rest) P D0 Fr S)
    as (pid & t & fs' & T & S' & E).
  cbn [app]. rewrite E. clear E.
  destruct (fast_exit_delay t w j T D ltac:(lia)) as (_ & B & B5 & B6).
  destruct (exit_handler_fields t w) as (_ & P' & _ & Dir).
  set (w' := giveUp (penalise t w)) in *.
  assert (take (length script)
            (restartDelays (startWorker cfg (script ++ rest) fs' w' st sp).2) =
          map (fun k => backoff_spec (j + 1 + Z.of_nat k))
              (seq 1 (length script))) as IH'.
  { destruct script as [|r' script']; [reflexivity|].
    apply IH;
      [ now rewrite P' | apply B5; cbn [length] in L; lia | lia
      | cbn [length] in *; lia | assumption | now rewrite Dir ]. }
  assert (forall tr tail,
    restartDelays tail = [] ->
    tr = (startWorker cfg (script ++ rest) fs' w' st sp).2 ->
    take (length (r :: script))
         (restartDelays (runEvents cfg w st sp pid ++ EvRestart w' :: tr ++ tail))
    = map (fun k => backoff_spec (j + Z.of_nat k)) (seq 1 (length (r :: script))))
    as K.
  { intros tr tail Htail ->.
    rewrite restartDelays_app, restartDelays_runEvents. cbn [app].
    change (restartDelays (EvRestart w' :: ?l)) with (delay w' :: restartDelays l).
    rewrite restartDelays_app, Htail, app_nil_r.
    cbn [length take seq map]. rewrite IH', B. f_equal.
    rewrite <- (seq_shift (length script) 1), map_map.
    apply map_ext. intros k. f_equal. lia. }
  destruct (startWorker cfg (script ++ rest) fs' w' st sp) as [[[[e|]|] fs''] tr];
    cbn [snd] in *.
  - apply K; reflexivity.
  - rewrite <- (app_nil_r tr). apply K; reflexivity.
  - rewrite <- (app_nil_r tr). apply K; reflexivity.
Qed.

(** A chain of fast exits that reaches the ceiling: one process per run,
    and the restart after the last one is refused. *)
Lemma fast_chain_end rest st sp : forall script fs w j,
  Protocol w = "grpc" -> delay w = 5 * second * j -> 0 <= j ->
  script <> [] -> j + Z.of_nat (length script) = 6 ->
  Forall fastQuiet script ->
  Stat fs (configFile cfg (directive w)) = None ->
  (startWorker cfg (script ++ rest) fs w st sp).1.1 = Done None /\
  length (launches (startWorker cfg (script ++ rest) fs w st sp).2) =
    length script /\
  last (startWorker cfg (script ++ rest) fs w st sp).2 =
    Some (EvLog LError (MsgCannotRestart (ErrTooManyTimes (program w)))).
Proof.
  induction script as [|r script IH]; intros fs w j P D J NE L F S;
    [congruence|].
  inversion F as [|? ? Fr Fs]; subst. cbn [length] in L.
  assert (0 <= delay w) as D0 by (rewrite D; unfold second; lia).
  destruct (fastQuiet_exit r fs w st sp (script ++ rest) P D0 Fr S)
    as (pid & t & fs' & T & S' & E).
  cbn [app]. rewrite E. clear E.
  destruct (fast_exit_delay t w j T D ltac:(lia)) as (_ & _ & B5 & B6).
  destruct (exit_handler_fields t w) as (_ & P' & _ & Dir).
  destruct (exit_handler_command t w) as (Prog & _ & _).
  set (w' := giveUp (penalise t w)) in *.
  destruct script as [|r' script'].
  - cbn [app length] in *.
    rewrite startWorker_negative; [| now rewrite P' | rewrite B6; lia].
    cbn [fst snd]. rewrite Prog. split; [reflexivity|]. split.
    + rewrite launches_app, launches_runEvents. reflexivity.
    + rewrite app_comm_cons, app_assoc. apply last_snoc.
  - destruct (IH fs' w' (j + 1)) as (O & N & Last);
      [ now rewrite P' | apply B5; cbn [length] in L; lia | lia | discriminate
      | cbn [length] in *; lia | assumption | now rewrite Dir | ].
    destruct (startWorker cfg ((r' :: script') ++ rest) fs' w' st sp)
      as [[o fs''] tr].
    cbn [fst snd] in O, N, Last. subst o. cbn [fst snd].
    split; [reflexivity|]. split.
    + rewrite launches_app, launches_runEvents.
      cbn [app launches List.filter isExec]. unfold launches in N.
      cbn [length]. now rewrite N.
    + rewrite last_app, last_cons, Last, Prog. reflexivity.
Qed.





End SupervisorFacts.

Lemma validEnvVar_true (val : string) :
  validEnvVar val = true <->
  forall pattern, In pattern envPatterns ->
    forall x m y, val = x +:+ m +:+ y ->
      ~ Regexp.matches (Regexp.MustCompile pattern) m.
Proof.
  unfold validEnvVar. rewrite negb_true_iff. split.
  - intros E pattern I x m y -> M.
    assert (Regexp.Match (Regexp.MustCompile pattern) (x +:+ m +:+ y) = true)
      as T by (apply RegexpFacts.Match_spec; eauto).
    assert (existsb (fun pattern => Regexp.Match (Regexp.MustCompile pattern)
                                      (x +:+ m +:+ y)) envPatterns = true)
      as X by (apply existsb_exists; eauto).
    congruence.
  - intros H. apply not_true_is_false. intros E.
    apply existsb_exists in E as (pattern & I & M).
    apply RegexpFacts.Match_spec in M as (x & m & y & E & M).
    exact (H pattern I x m y E M).
Qed.

(* ===================================================================== *)
(** * The properties of the specification *)
(* ===================================================================== *)

(** C1.  Backoff policy.  A worker starts with delay 0 and its config file
    stays in place.  Each exit with less than one second of system time adds
    five seconds to the delay (and a slower exit adds nothing), so that at
    the k-th such exit in a row the delay is the minimum of 5 s times k and
    30 s; the exit handler replaces it by the negative sentinel once it
    reaches 30 s, and the restart after the k-th of [length script <= 6]
    fast exits is called with that delay, [backoff_spec k].  After the
    sixth, six processes have been created, whatever further runs the
    system offers, and the trace ends with the refusal of the restart; and
    every call with a negative delay returns an error and does nothing. *)
Theorem backoff_policy (cfg : Config) (script rest : list proc_run)
  (fs : gmap string node) (w : workerConfig) (st sp : bool) :
  Protocol w = "grpc" -> delay w = 0 ->
  Stat fs (configFile cfg (directive w)) = None ->
  Forall fastQuiet script -> (length script <= 6)%nat ->
  let tr := (startWorker cfg (script ++ rest) fs w st sp).2 in
  (forall t w1, t < 1 * second ->
     - 2 ^ 63 <= delay w1 + 5 * second < 2 ^ 63 ->
     delay (penalise t w1) = delay w1 + 5 * second) /\
  (forall t w1, 1 * second <= t -> penalise t w1 = w1) /\
  (forall k t w1, 1 <= k <= 6 -> t < 1 * second ->
     delay w1 = 5 * second * (k - 1) ->
     delay (penalise t w1) = Z.min (5 * second * k) (30 * second) /\
     delay (giveUp (penalise t w1)) = backoff_spec k) /\
  take (length script) (restartDelays tr) =
    map (fun k => backoff_spec (Z.of_nat k)) (seq 1 (length script)) /\
  (forall k, 0 <= k < 6 -> backoff_spec k = 5 * second * k) /\
  backoff_spec 6 = -1 /\
  (length script = 6%nat ->
     length (launches tr) = 6%nat /\
     last tr =
       Some (EvLog LError (MsgCannotRestart (ErrTooManyTimes (program w))))) /\
  (forall script' fs' w', delay w' < 0 ->
     exists e, startWorker cfg script' fs' w' st sp = (Done (Some e), fs', [])).
Proof.
  intros P D S F L tr.
  split; [|split; [|split; [|split; [|split; [|split; [|split]]]]]].
  - intros t w1 T R. unfold penalise. apply Z.ltb_lt in T. rewrite T.
    cbn [delay with_delay]. now apply wrap64_small.
  - intros t w1 T. unfold penalise. apply Z.ltb_ge in T. now rewrite T.
  - intros k t w1 K T E.
    destruct (fast_exit_delay t w1 (k - 1) T E ltac:(lia)) as (A & B & _).
    replace (k - 1 + 1) with k in A, B by lia. now split.
  - subst tr. now rewrite (fast_chain cfg rest st sp script fs w 0) by (auto; lia).
  - intros k K. unfold backoff_spec.
    rewrite Z.min_l by (unfold second; lia).
    destruct (5 * second * k >=? 30 * second) eqn:G; [|reflexivity].
    apply Z.geb_le in G. unfold second in G. lia.
  - reflexivity.
  - subst tr. intros L6.
    assert (script <> []) as NE by (intros ->; discriminate).
    destruct (fast_chain_end cfg rest st sp script fs w 0) as (_ & N & X);
      auto; try lia.
    now rewrite N.
  - intros script' fs' w' N.
    destruct (String.eqb (Protocol w') "grpc") eqn:E.
    + apply String.eqb_eq in E. eexists. now apply startWorker_negative.
    + apply String.eqb_neq in E. eexists. now apply startWorker_unsupported.
Qed.

Lemma backoff_policy_witness :
  let script := map Example.fast [101; 102; 103; 104; 105; 106] in
  let tr := (startWorker Example.cfg (script ++ [Example.fast 107])
               Example.installed Example.echo false true).2 in
  restartDelays tr =
    [5000000000; 10000000000; 15000000000; 20000000000; 25000000000; -1] /\
  length (launches tr) = 6%nat.
Proof.
  intros script tr.
  assert (Forall fastQuiet script) as F.
  { repeat constructor; eexists _, 1000; repeat split; reflexivity. }
  destruct (backoff_policy Example.cfg script [Example.fast 107]
              Example.installed Example.echo false true
              eq_refl eq_refl eq_refl F ltac:(cbn; lia))
    as (_ & _ & _ & T & _ & _ & E & _).
  split; [|exact (proj1 (E eq_refl))].
  vm_compute in T. vm_compute. exact T.
Defined.



(** What happens on a write-close or move-in notification whose file does
    not load: the error is logged, then the loop dereferences the nil
    pointer and the watcher stops there, whatever notifications follow. *)
Lemma watchLoop_panics (Unmarshal : string -> option (string * string * list string))
  (cfg : Config) (k : Kernel) (e : notification) (rest : list notification)
  (fs : gmap string node) :
  ev_kind e = InCloseWrite \/ ev_kind e = InMovedTo ->
  (loadWorkerConfig Unmarshal (apply_ops (ev_before e) fs) (ev_path e)).1 = None ->
  exists er,
    watchLoop Unmarshal cfg k (e :: rest) fs =
    (Panicked, apply_ops (ev_before e) fs,
     [EvLog LDebug (MsgReceived (ev_kind e));
      EvLog LTrace (MsgNewWorker (ev_path e));
      EvLog LError (MsgCannotLoad er)]).
Proof.
  intros K L. cbn [watchLoop].
  assert (exists er, loadWorkerConfig Unmarshal (apply_ops (ev_before e) fs)
                       (ev_path e) = (None, Some er)) as (er & E).
  { revert L. unfold loadWorkerConfig.
    destruct (ReadFile _ _); [|eauto].
    destruct (Unmarshal _) as [[[? ?] ?]|]; [discriminate | eauto]. }
  exists er. rewrite E. destruct K as [-> | ->]; reflexivity.
Qed.

(** The sibling branch: a delete or move-out notification whose stop fails
    is logged and the loop goes on with the next notification. *)
Lemma watchLoop_stop_failure_continues
  (Unmarshal : string -> option (string * string * list string))
  (cfg : Config) (k : Kernel) (e : notification) (rest : list notification)
  (fs : gmap string node) (er : error) (fs' : gmap string node)
  (tr : list event) :
  ev_kind e = InDelete \/ ev_kind e = InMovedFrom ->
  stopWorker cfg k (apply_ops (ev_before e) fs) (filenameStem (ev_path e)) =
    (Some er, fs', tr) ->
  watchLoop Unmarshal cfg k (e :: rest) fs =
  (let '(fin, fs'', tr') := watchLoop Unmarshal cfg k rest fs' in
   (fin, fs'',
    ([EvLog LDebug (MsgReceived (ev_kind e))] ++ tr ++
     [EvLog LError (MsgCannotKill (filenameStem (ev_path e)) er)]) ++ tr')).
Proof.
  intros K S. cbn [watchLoop]. rewrite S.
  destruct K as [-> | ->]; reflexivity.
Qed.

(** C3 (the code fails the claim).  A write-close notification for a file
    that is gone when the watcher reads it (it was written, then removed)
    makes the watcher stop with a panic, whatever the parser is: the error
    of the load is logged, then the nil pointer is read.  The delete
    notification that follows is never handled (no signal is sent),
    although the watcher handles that same notification when it comes
    alone. *)
Theorem watcher_panics_on_unloadable_config
  (Unmarshal : string -> option (string * string * list string)) :
  let bad := {| ev_kind := InCloseWrite;
                ev_path := "/etc/yggdrasil/workers/bad.toml";
                ev_before :=
                  [FsCreate "/etc/yggdrasil/workers/bad.toml" Example.echoToml;
                   FsRemove "/etc/yggdrasil/workers/bad.toml"] |} in
  let gone := {| ev_kind := InDelete;
                 ev_path := "/etc/yggdrasil/workers/echo.toml";
                 ev_before := [FsRemove "/etc/yggdrasil/workers/echo.toml"] |} in
  let fs : gmap string node :=
    <["/var/run/yggdrasil/workers/echo.pid" := Regular "4242"]>
      Example.installed in
  let run events :=
    watchWorkerDir Unmarshal Example.cfg Example.kernel None events fs in
  (run [bad; gone]).1.1 = Panicked /\
  (run [bad; gone]).2 =
    [EvLog LDebug (MsgReceived InCloseWrite);
     EvLog LTrace (MsgNewWorker "/etc/yggdrasil/workers/bad.toml");
     EvLog LError (MsgCannotLoad (Wrap "cannot read file" (ErrOS ENOENT)))] /\
  (run [gone]).1.1 = ChannelClosed /\
  (run [gone]).2 =
    [EvLog LDebug (MsgReceived InDelete); EvSignal 4242;
     EvRemove "/var/run/yggdrasil/workers/echo.pid"].
Proof. vm_compute. repeat split. Qed.

(** C4.  Every process [startWorker] creates, restarts included, gets the
    environment made of the daemon's entries followed by the worker's [env]
    entries that pass [validEnvVar], in their order; an entry of the worker
    that contains a match of [PATH=.*] or of [YGG_.*=.*] is not among them,
    and none of them contains such a match (a match of the whole entry is
    one). *)
Theorem denylist_enforced (cfg : Config) (script : list proc_run)
  (fs : gmap string node) (w : workerConfig) (st sp : bool)
  (p : string) (a env : list string) (res : Z + errno) :
  In (EvExec p a env res) (startWorker cfg script fs w st sp).2 ->
  let user := List.filter validEnvVar (Env w) in
  env = daemonEnv cfg ++ user /\
  (forall e pattern x m y,
     In e (Env w) -> In pattern envPatterns -> e = x +:+ m +:+ y ->
     Regexp.matches (Regexp.MustCompile pattern) m -> ~ In e user) /\
  (forall e pattern x m y,
     In e user -> In pattern envPatterns -> e = x +:+ m +:+ y ->
     ~ Regexp.matches (Regexp.MustCompile pattern) m) /\
  (forall e, In e user -> In e (Env w)).
Proof.
  intros H user. apply exec_events in H as (_ & _ & ->).
  split; [reflexivity|]. split; [|split].
  - intros e pattern x m y _ I E M U.
    apply List.filter_In in U as [_ V].
    exact (proj1 (validEnvVar_true e) V pattern I x m y E M).
  - intros e pattern x m y U I E.
    apply List.filter_In in U as [_ V].
    exact (proj1 (validEnvVar_true e) V pattern I x m y E).
  - intros e U. now apply List.filter_In in U.
Qed.

Lemma denylist_enforced_witness :
  let tr := (startWorker Example.cfg [Example.fast 101] Example.installed
               Example.echo false true).2 in
  In (EvExec "/bin/echo" ["hi"]
        (daemonEnv Example.cfg ++ ["FOO=1"]) (inl 101)) tr /\
  ~ In "YGG_CLIENT_ID=evil" (List.filter validEnvVar (Env Example.echo)).
Proof.
  intros tr.
  assert (In (EvExec "/bin/echo" ["hi"]
                (daemonEnv Example.cfg ++ ["FOO=1"]) (inl 101)) tr) as I.
  { vm_compute. auto. }
  split; [exact I|].
  destruct (denylist_enforced Example.cfg [Example.fast 101] Example.installed
              Example.echo false true _ _ _ _ I) as (_ & D & _).
  apply (D "YGG_CLIENT_ID=evil" "YGG_.*=.*" "" "YGG_CLIENT_ID=evil" "").
  - cbn. auto.
  - cbn. auto.
  - reflexivity.
  - apply RegexpFacts.matches_YGG. exists "CLIENT_ID", "evil". now split.
Defined.

(** C5.  The explicit stop.  [stopWorker] reads the pid record, parses its
    content, trimmed of white space, as a decimal integer, signals that
    pid, then removes the record: the signal comes before the removal.
    Without a record it returns an error that wraps "no such file", signals
    nothing and changes nothing; with a content that is not an integer it
    returns a parse error, signals nothing and leaves the record; when the
    signal is not delivered it returns an error and leaves the record. *)
Theorem stopWorker_spec (cfg : Config) (k : Kernel) (fs : gmap string node)
  (name : string) :
  let record := pidFile cfg name in
  (fs !! record = None ->
     stopWorker cfg k fs name =
     (Some (Wrap "cannot read file" (ErrOS ENOENT)), fs, [])) /\
  (forall data e,
     fs !! record = Some (Regular data) ->
     Strconv.ParseInt (Strings.TrimSpace data) = inr e ->
     stopWorker cfg k fs name =
     (Some (Wrap "cannot parse data" (ErrNum e)), fs, [])) /\
  (forall data pid e,
     fs !! record = Some (Regular data) ->
     Strconv.ParseInt (Strings.TrimSpace data) = inl pid ->
     sigterm k pid = Some e ->
     stopWorker cfg k fs name =
     (Some (Wrap "cannot stop worker" (ErrOS e)), fs, [])) /\
  (forall data pid,
     fs !! record = Some (Regular data) ->
     Strconv.ParseInt (Strings.TrimSpace data) = inl pid ->
     sigterm k pid = None -> unlink k record = None ->
     stopWorker cfg k fs name =
     (None, delete record fs, [EvSignal pid; EvRemove record])).
Proof.
  intros record. unfold stopWorker. fold (pidFile cfg name). fold record.
  unfold ReadFile, stopProcess, Remove.
  split; [|split; [|split]].
  - now intros ->.
  - now intros data e -> ->.
  - now intros data pid e -> -> ->.
  - now intros data pid -> -> -> ->.
Qed.

Lemma stopWorker_spec_witness :
  let record := "/var/run/yggdrasil/workers/echo.pid" in
  let tracked : gmap string node :=
    {[ record := Regular (" 4242" +:+ String Str.LF "") ]} in
  let garbled : gmap string node := {[ record := Regular "42x" ]} in
  let stale : gmap string node := {[ record := Regular "17" ]} in
  stopWorker Example.cfg Example.kernel ∅ "echo" =
    (Some (Wrap "cannot read file" (ErrOS ENOENT)), ∅, []) /\
  stopWorker Example.cfg Example.kernel garbled "echo" =
    (Some (Wrap "cannot parse data" (ErrNum Strconv.ErrSyntax)), garbled, []) /\
  stopWorker Example.cfg Example.kernel stale "echo" =
    (Some (Wrap "cannot stop worker" (ErrOS ESRCH)), stale, []) /\
  stopWorker Example.cfg Example.kernel tracked "echo" =
    (None, delete record tracked, [EvSignal 4242; EvRemove record]).
Proof.
  intros record tracked garbled stale.
  split; [|split; [|split]].
  - apply (proj1 (stopWorker_spec Example.cfg Example.kernel ∅ "echo")).
    reflexivity.
  - apply (proj1 (proj2 (stopWorker_spec Example.cfg Example.kernel garbled
                           "echo")) "42x"); reflexivity.
  - apply (proj1 (proj2 (proj2 (stopWorker_spec Example.cfg Example.kernel
                                  stale "echo"))) "17" 17); reflexivity.
  - apply (proj2 (proj2 (proj2 (stopWorker_spec Example.cfg Example.kernel
                                  tracked "echo")))
             (" 4242" +:+ String Str.LF "") 4242); reflexivity.
Defined.

(** C6.  When [loadWorkerConfig] succeeds, the directive is the expression
    of the code on the path alone; for a path that names a file (not empty,
    no separator at its end) it is the filename stem of the specification,
    the base name with its extension removed; and it is the same whatever
    the file holds and however the parser reads it. *)
Theorem directive_is_filename_stem
  (Unmarshal : string -> option (string * string * list string))
  (fs : gmap string node) (file : string) (w : workerConfig) :
  loadWorkerConfig Unmarshal fs file = (Some w, None) ->
  directive w = filenameStem file /\
  (namesFile file = true -> directive w = filenameStem_spec file) /\
  (forall Unmarshal' fs' w',
     loadWorkerConfig Unmarshal' fs' file = (Some w', None) ->
     directive w' = directive w).
Proof.
  assert (forall U f x, loadWorkerConfig U f file = (Some x, None) ->
                        directive x = filenameStem file) as K.
  { intros U f x. unfold loadWorkerConfig.
    destruct (ReadFile f file); [|discriminate].
    destruct (U _) as [[[? ?] ?]|]; [|discriminate].
    now intros [= <-]. }
  intros H. split; [eauto|]. split.
  - intros N. rewrite <- PathFacts.filenameStem_spec_ok by assumption. eauto.
  - intros U' fs' w' H'. rewrite (K _ _ _ H), (K _ _ _ H'). reflexivity.
Qed.

Lemma directive_is_filename_stem_witness :
  let file := "/etc/yggdrasil/workers/echo.v2.toml" in
  let fs : gmap string node := {[ file := Regular Example.echoToml ]} in
  exists w,
    loadWorkerConfig Example.Unmarshal fs file = (Some w, None) /\
    directive w = "echo.v2" /\ filenameStem_spec file = "echo.v2".
Proof.
  intros file fs. eexists. split; [reflexivity|].
  destruct (directive_is_filename_stem Example.Unmarshal fs file _ eq_refl)
    as (_ & S & _).
  split; [|reflexivity]. rewrite (S eq_refl). reflexivity.
Defined.

(** The claim C7 fails: with two spaces in a row the arguments hold an
    empty token, and a tab does not separate. *)
Lemma exec_split_counterexample :
  let double := {| Exec := "/bin/echo  hi"; Protocol := "grpc"; Env := [];
                   delay := 0; directive := "echo" |} in
  let tabbed := {| Exec := "/bin/echo" +:+ String (Str.byte 9) "hi";
                   Protocol := "grpc"; Env := []; delay := 0;
                   directive := "echo" |} in
  let run w := (startWorker Example.cfg [Example.fast 101] Example.installed
                  w false true).2 in
  In (EvExec "/bin/echo" [""; "hi"] (childEnv Example.cfg double) (inl 101))
     (run double) /\
  tokens_spec (Exec double) = ["/bin/echo"; "hi"] /\
  In (EvExec (Exec tabbed) [] (childEnv Example.cfg tabbed) (inl 101))
     (run tabbed) /\
  tokens_spec (Exec tabbed) = ["/bin/echo"; "hi"].
Proof. vm_compute. auto 8. Qed.

(** C7, amended.  [startWorker] splits the exec string at every space
    character: the program and the arguments of every process it creates
    are the pieces of that string between its spaces, the only list of
    space-free strings that gives the exec string back when joined with
    single spaces.  They are the white-space delimited tokens when every
    piece is a plain token (not empty, free of white space). *)
Theorem exec_split_on_spaces (cfg : Config) (script : list proc_run)
  (fs : gmap string node) (w : workerConfig) (st sp : bool)
  (p : string) (a env : list string) (res : Z + errno) :
  In (EvExec p a env res) (startWorker cfg script fs w st sp).2 ->
  p :: a = Strings.Split (Exec w) " " /\
  Strings.Join (p :: a) " " = Exec w /\
  Forall (fun t => Str.lacks " " t = true) (p :: a) /\
  (forall l, l <> [] -> Forall (fun t => Str.lacks " " t = true) l ->
             Strings.Join l " " = Exec w -> l = p :: a) /\
  (Forall (fun t => plainToken t = true) (p :: a) ->
   p :: a = tokens_spec (Exec w)).
Proof.
  intros H. apply exec_events in H as (-> & -> & _).
  assert (program w :: args w = Strings.Split (Exec w) " ") as E.
  { unfold program, args.
    pose proof (PathFacts.Split_nonempty (Exec w) " ").
    destruct (Strings.Split (Exec w) " "); [congruence | reflexivity]. }
  rewrite E. split; [reflexivity|].
  split; [apply PathFacts.Split_Join|].
  split; [apply PathFacts.Split_lacks|]. split.
  - intros l NE F J. rewrite <- J. symmetry. now apply PathFacts.Split_unique.
  - intros F. rewrite <- (PathFacts.Split_Join (Exec w) " ") at 2.
    symmetry. now apply PathFacts.tokens_spec_Join.
Qed.

Lemma exec_split_on_spaces_witness :
  let tr := (startWorker Example.cfg [Example.fast 101] Example.installed
               Example.echo false true).2 in
  In (EvExec "/bin/echo" ["hi"] (childEnv Example.cfg Example.echo) (inl 101)) tr /\
  ["/bin/echo"; "hi"] = tokens_spec "/bin/echo hi".
Proof.
  intros tr.
  assert (In (EvExec "/bin/echo" ["hi"] (childEnv Example.cfg Example.echo)
                (inl 101)) tr) as I.
  { vm_compute. auto. }
  split; [exact I|].
  destruct (exec_split_on_spaces Example.cfg [Example.fast 101]
              Example.installed Example.echo false true _ _ _ _ I)
    as (_ & _ & _ & _ & T).
  apply T. repeat constructor.
Defined.

(** C8.  Only the protocol "grpc" is supported.  With any other protocol
    [startWorker] returns the unsupported-protocol error and does nothing;
    every process it creates has the socket address of the transport in its
    environment, after the baseline and the proxy entries and before the
    worker's own; and with "grpc" and a delay that is not negative it does
    create a process with that environment. *)
Theorem grpc_is_the_only_protocol (cfg : Config) (script : list proc_run)
  (fs : gmap string node) (w : workerConfig) (st sp : bool) :
  (Protocol w <> "grpc" ->
   startWorker cfg script fs w st sp =
   (Done (Some (ErrUnsupportedProtocol (Protocol w))), fs, [])) /\
  (forall p a env res,
     In (EvExec p a env res) (startWorker cfg script fs w st sp).2 ->
     Protocol w = "grpc" /\
     env = baseEnv cfg ++ proxyEnv cfg
           ++ ["YGG_SOCKET_ADDR=unix:" +:+ SocketAddr cfg]
           ++ List.filter validEnvVar (Env w)) /\
  (Protocol w = "grpc" -> 0 <= delay w ->
   forall r rest,
     In (EvExec (program w) (args w) (childEnv cfg w) (run_start r))
        (startWorker cfg (r :: rest) fs w st sp).2).
Proof.
  split; [apply startWorker_unsupported|]. split.
  - intros p a env res H. split.
    + destruct (String.eqb (Protocol w) "grpc") eqn:E;
        [now apply String.eqb_eq in E|].
      apply String.eqb_neq in E.
      rewrite (startWorker_unsupported cfg script fs w st sp E) in H.
      destruct H.
    + apply exec_events in H as (_ & _ & ->).
      unfold childEnv, daemonEnv. now rewrite <- !app_assoc.
  - intros P D r rest. now apply first_launch.
Qed.

Lemma grpc_is_the_only_protocol_witness :
  let other := {| Exec := "/bin/echo hi"; Protocol := "mqtt"; Env := [];
                  delay := 0; directive := "echo" |} in
  startWorker Example.cfg [Example.fast 101] Example.installed other false true
    = (Done (Some (ErrUnsupportedProtocol "mqtt")), Example.installed, []) /\
  In (EvExec "/bin/echo" ["hi"] (childEnv Example.cfg Example.echo) (inl 101))
     (startWorker Example.cfg [Example.fast 101] Example.installed
        Example.echo false true).2 /\
  In "YGG_SOCKET_ADDR=unix:@yggd" (childEnv Example.cfg Example.echo).
Proof.
  intros other. split; [|split].
  - apply (proj1 (grpc_is_the_only_protocol Example.cfg [Example.fast 101]
                    Example.installed other false true)).
    discriminate.
  - apply (proj2 (proj2 (grpc_is_the_only_protocol Example.cfg []
                           Example.installed Example.echo false true))
             eq_refl ltac:(cbn; lia) (Example.fast 101) []).
  - vm_compute. auto 8.
Defined.

(** The claim C9 fails on a line feed: this entry holds "YGG_", then
    characters, then "=", and [validEnvVar] accepts it, so that it reaches
    the child environment. *)
Lemma denylist_line_feed_counterexample :
  let val := "YGG_A" +:+ String Str.LF "=b" in
  let w := {| Exec := "/bin/echo hi"; Protocol := "grpc"; Env := [val];
              delay := 0; directive := "echo" |} in
  val = "" +:+ "YGG_" +:+ ("A" +:+ String Str.LF "") +:+ "=" +:+ "b" /\
  validEnvVar val = true /\
  In val (childEnv Example.cfg w).
Proof.
  vm_compute. split; [reflexivity|]. split; [reflexivity|]. auto 12.
Qed.

(** C9, amended.  The deny-list is an unanchored search: [validEnvVar] is
    false exactly of the strings that contain "PATH=" anywhere, or contain
    "YGG_" followed, after any characters other than a line feed, by "=";
    so "CLASSPATH=/x" and "XYGG_A=b" are rejected too, and what is rejected
    is not among the worker's entries of the child environment. *)
Theorem denylist_is_unanchored :
  (forall val,
     validEnvVar val = false <->
     Str.contains val "PATH=" \/
     exists a b c, val = a +:+ "YGG_" +:+ b +:+ "=" +:+ c /\ Str.no_LF b = true) /\
  validEnvVar "CLASSPATH=/x" = false /\
  validEnvVar "XYGG_A=b" = false /\
  (forall (w : workerConfig) val,
     validEnvVar val = false -> ~ In val (List.filter validEnvVar (Env w))).
Proof.
  split; [exact RegexpFacts.validEnvVar_false|].
  split; [reflexivity|]. split; [reflexivity|].
  intros w val F I. apply List.filter_In in I as [_ T]. congruence.
Qed.

Lemma denylist_is_unanchored_witness :
  validEnvVar "LD_LIBRARY_PATH=/opt" = false /\
  ~ In "LD_LIBRARY_PATH=/opt"
       (List.filter validEnvVar ["LD_LIBRARY_PATH=/opt"; "FOO=1"]).
Proof.
  destruct denylist_is_unanchored as (C & _ & _ & D).
  assert (validEnvVar "LD_LIBRARY_PATH=/opt" = false) as F.
  { apply C. left. now exists "LD_LIBRARY_", "/opt". }
  split; [exact F|].
  apply (D {| Exec := ""; Protocol := "grpc";
              Env := ["LD_LIBRARY_PATH=/opt"; "FOO=1"];
              delay := 0; directive := "w" |} _ F).
Defined.



(* ===================================================================== *)
(** * Facts about [filepath.Clean] and [filepath.Join] *)
(* ===================================================================== *)

Module CleanFacts.
Import Str StrFacts Strings Filepath PathFacts.

Lemma Split_app (a b : string) (c : ascii) :
  Split (a +:+ String c b) c = Split a c ++ Split b c.
Proof.
  induction a as [|x a IH]; str_simpl; cbn [Split].
  - now rewrite Ascii.eqb_refl.
  - rewrite IH. destruct (Ascii.eqb x c); [reflexivity|].
    pose proof (Split_nonempty a c).
    destruct (Split a c); [congruence | reflexivity].
Qed.

Lemma Clean_eq (path : string) :
  path <> "" ->
  Clean path =
  cleaned (rootedOf path)
    (fold_left (cleanStep (rootedOf path)) (Split path "/") []).
Proof. destruct path; [congruence | reflexivity]. Qed.

Lemma cleanStep_kept r S e :
  keptElement e -> canonical r S ->
  cleanStep r S e =
  if String.eqb e ".."
  then match S with
       | top :: below => if String.eqb top ".." then ".." :: S else below
       | [] => if r then [] else [".."]
       end
  else e :: S.
Proof.
  intros (E1 & E2 & _) _. unfold cleanStep.
  apply String.eqb_neq in E1, E2. now rewrite E1, E2.
Qed.

Lemma cleanStep_canonical r S e :
  lacks "/" e = true -> canonical r S -> canonical r (cleanStep r S e).
Proof.
  intros L C. unfold cleanStep.
  destruct (String.eqb e "") eqn:E1; [exact C|].
  destruct (String.eqb e ".") eqn:E2; [exact C|]. cbn [orb].
  apply String.eqb_neq in E1, E2.
  destruct (String.eqb e "..") eqn:E3.
  - apply String.eqb_eq in E3 as ->.
    destruct S as [|top below].
    + destruct r; cbn [canonical]; [exact I|].
      split; [now repeat split|]. split; [now intros _ | exact I].
    + destruct (String.eqb top "..") eqn:T.
      * apply String.eqb_eq in T as ->.
        destruct C as (K & D & C'). destruct (D eq_refl) as (R & B).
        cbn [canonical]. split; [exact K|].
        split; [intros _; split; [exact R | reflexivity]|].
        split; [exact K|]. split; [exact D | exact C'].
      * now destruct C as (_ & _ & C').
  - apply String.eqb_neq in E3. cbn [canonical].
    split; [now repeat split|]. split; [congruence | exact C].
Qed.

Lemma fold_canonical r l : forall S,
  Forall (fun t => lacks "/" t = true) l -> canonical r S ->
  canonical r (fold_left (cleanStep r) l S).
Proof.
  induction l as [|e l IH]; intros S F C; [exact C|].
  inversion F; subst. cbn [fold_left]. apply IH; auto.
  now apply cleanStep_canonical.
Qed.

Lemma canonical_lacks r S :
  canonical r S -> Forall (fun t => lacks "/" t = true) S.
Proof.
  induction S as [|e S IH]; intros C; constructor.
  - now destruct C as ((_ & _ & L) & _).
  - apply IH. now destruct C as (_ & _ & C).
Qed.

Lemma fold_rev_canonical r S :
  canonical r S -> fold_left (cleanStep r) (List.rev S) [] = S.
Proof.
  induction S as [|e S IH]; intros C; [reflexivity|].
  destruct C as (K & D & C). cbn [List.rev].
  rewrite fold_left_app, IH by assumption. cbn [fold_left].
  rewrite cleanStep_kept by assumption.
  destruct (String.eqb e "..") eqn:E; [|reflexivity].
  apply String.eqb_eq in E as ->. destruct (D eq_refl) as (-> & B).
  destruct S as [|t S']; [reflexivity|]. subst t. reflexivity.
Qed.

Lemma canonical_kept r S : canonical r S -> Forall keptElement S.
Proof.
  induction S as [|e S IH]; intros C; constructor.
  - now destruct C as (K & _).
  - apply IH. now destruct C as (_ & _ & C).
Qed.

Lemma rootedOf_app (a b : string) :
  a <> "" -> rootedOf (a +:+ b) = rootedOf a.
Proof. destruct a; [congruence | reflexivity]. Qed.

Lemma rootedOf_kept (e : string) : keptElement e -> rootedOf e = false.
Proof.
  intros (NE & _ & L). destruct e as [|c e]; [congruence|].
  cbn [lacks] in L. apply andb_true_iff in L as [L _].
  now apply negb_true_iff in L.
Qed.

Lemma Join_kept (e : string) (l : list string) :
  keptElement e ->
  Strings.Join (e :: l) "/" <> "" /\ rootedOf (Strings.Join (e :: l) "/") = false.
Proof.
  intros K. pose proof (rootedOf_kept e K) as R. destruct K as (NE & _).
  destruct l as [|y l]; [now split|]. rewrite Join_cons. split.
  - intros H. apply app_eq_nil in H as [H _]. congruence.
  - now rewrite rootedOf_app.
Qed.

(** The cleaned path is rooted as the path was, is not empty, and cleans
    to the same stack. *)
Lemma cleaned_spec r S :
  canonical r S ->
  rootedOf (cleaned r S) = r /\ cleaned r S <> "" /\
  fold_left (cleanStep r) (Split (cleaned r S) "/") [] = S.
Proof.
  intros C. destruct S as [|t S'].
  { destruct r; repeat split; discriminate. }
  assert (t :: S' <> []) as NS by discriminate.
  generalize dependent (t :: S'). clear t S'. intros S C NS.
  assert (Forall keptElement (List.rev S)) as FK.
  { apply Forall_rev. eapply canonical_kept; eauto. }
  assert (Forall (fun t => lacks "/" t = true) (List.rev S)) as FL.
  { apply Forall_rev. eapply canonical_lacks; eauto. }
  assert (List.rev S <> []) as NE.
  { intros H. apply (f_equal (@List.rev string)) in H.
    rewrite List.rev_involutive in H. cbn in H. congruence. }
  pose proof (fold_rev_canonical r S C) as FR.
  unfold cleaned.
  destruct (List.rev S) as [|e l]; [congruence|].
  assert (keptElement e) as Ke by (now inversion FK).
  destruct (Join_kept e l Ke) as (JN & JR).
  pose proof (Split_unique "/" (e :: l) NE FL) as SU.
  destruct r; cbv zeta.
  - change ("/" +:+ ?b) with (String "/" b). cbn [String.eqb].
    repeat split; [discriminate|].
    cbn [Split Ascii.eqb Bool.eqb]. rewrite SU. exact FR.
  - apply String.eqb_neq in JN. rewrite JN. apply String.eqb_neq in JN.
    repeat split; auto. rewrite SU. exact FR.
Qed.

(** Cleaning a prefix first does not change the result. *)
Lemma Clean_Clean_app (P x : string) :
  P <> "" -> Clean (Clean P +:+ String "/" x) = Clean (P +:+ String "/" x).
Proof.
  intros NE.
  assert (canonical (rootedOf P)
            (fold_left (cleanStep (rootedOf P)) (Split P "/") [])) as C.
  { apply fold_canonical; [apply Split_lacks | exact I]. }
  destruct (cleaned_spec _ _ C) as (R & N & F).
  rewrite <- (Clean_eq P NE) in R, N, F.
  set (c := Clean P) in *.
  rewrite (Clean_eq (c +:+ String "/" x)), (Clean_eq (P +:+ String "/" x)).
  - rewrite !rootedOf_app, R by assumption.
    rewrite !Split_app, !fold_left_app, F. reflexivity.
  - intros H. apply app_eq_nil in H as [H _]. congruence.
  - intros H. apply app_eq_nil in H as [H _]. congruence.
Qed.

Lemma Clean_nonempty (path : string) : Clean path <> "".
Proof.
  destruct path as [|c p]; [discriminate|]. cbn [Clean]. cbv zeta.
  match goal with |- (if String.eqb ?o "" then _ else _) <> _ =>
    destruct (String.eqb o "") eqn:E end; [discriminate|].
  now apply String.eqb_neq in E.
Qed.

End CleanFacts.

Lemma Join_Clean (P x : string) :
  P <> "" ->
  Filepath.Join [Filepath.Clean P; x] = Filepath.Clean (P +:+ String "/" x).
Proof.
  intros NE. cbn [Filepath.Join].
  pose proof (CleanFacts.Clean_nonempty P) as N.
  apply String.eqb_neq in N. rewrite N. cbn [Strings.Join].
  now apply CleanFacts.Clean_Clean_app.
Qed.

Lemma Join_nonempty_head (e : string) (rest : list string) :
  e <> "" ->
  Filepath.Join (e :: rest) = Filepath.Clean (Strings.Join (e :: rest) "/").
Proof. intros NE. cbn [Filepath.Join]. apply String.eqb_neq in NE. now rewrite NE. Qed.

(** [startWorker] and [stopWorker] compute the same path of the pid record. *)
Lemma pidFile_agree (cfg : Config) (name : string) :
  pidFile' cfg name = pidFile cfg name.
Proof.
  unfold pidFile', pidFile. set (x := name +:+ ".pid").
  destruct (String.eqb (LocalstateDir cfg) "") eqn:E.
  - apply String.eqb_eq in E. rewrite E.
    change (Filepath.Join [""; "run"; LongName cfg; "workers"])
      with (Filepath.Clean ("run" +:+ "/" +:+ LongName cfg +:+ "/" +:+ "workers")).
    change (Filepath.Join [""; "run"; LongName cfg; "workers"; x])
      with (Filepath.Clean ("run" +:+ "/" +:+ LongName cfg +:+ "/" +:+ "workers"
                            +:+ "/" +:+ x)).
    rewrite Join_Clean by discriminate.
    f_equal. rewrite !StrFacts.app_assoc. reflexivity.
  - apply String.eqb_neq in E.
    rewrite !(Join_nonempty_head (LocalstateDir cfg)) by assumption.
    cbn [Strings.Join]. rewrite Join_Clean.
    + f_equal. rewrite !StrFacts.app_assoc. reflexivity.
    + intros H. apply StrFacts.app_eq_nil in H as [H _]. congruence.
Qed.

(* ===================================================================== *)
(** * Facts about decimal numerals and white space *)
(* ===================================================================== *)

Module DecimalFacts.
Import Str StrFacts Strings Strconv PathFacts.

Lemma uintValue_acc d : forall acc,
  Z.pos (Pos.of_uint_acc d acc) = uintValue (Z.pos acc) d.
Proof.
  induction d; intros acc; cbn [Pos.of_uint_acc uintValue];
    try reflexivity; rewrite IHd; f_equal; lia.
Qed.

Lemma uintValue_of_uint d : Z.of_N (Pos.of_uint d) = uintValue 0 d.
Proof.
  induction d; cbn [Pos.of_uint uintValue]; try reflexivity;
    try exact IHd; cbn [Z.of_N]; rewrite uintValue_acc; reflexivity.
Qed.

Lemma uintValue_to_uint p : uintValue 0 (Pos.to_uint p) = Z.pos p.
Proof. now rewrite <- uintValue_of_uint, DecimalPos.Unsigned.of_to. Qed.

Lemma to_uint_not_Nil p : Pos.to_uint p <> Decimal.Nil.
Proof.
  intros H. pose proof (DecimalPos.Unsigned.of_to p) as E.
  rewrite H in E. discriminate.
Qed.

Lemma uintValue_mono d : forall acc, 0 <= acc -> acc <= uintValue acc d.
Proof.
  induction d; intros acc A; cbn [uintValue]; try lia;
    match goal with |- _ <= uintValue ?a _ =>
      specialize (IHd a ltac:(lia)); lia end.
Qed.

Lemma parseDigits_uint d : forall acc,
  0 <= acc -> uintValue acc d <= 2 ^ 64 - 1 ->
  parseDigits acc (NilEmpty.string_of_uint d) = inl (uintValue acc d).
Proof.
  induction d; intros acc A B;
    cbn [NilEmpty.string_of_uint parseDigits uintValue] in *;
    try reflexivity;
    match goal with
    | |- context [digit ?c] =>
        let v := eval vm_compute in (digit c) in
        change (digit c) with v; cbv iota beta zeta
    end;
    match goal with
    | H : uintValue ?a d <= _ |- _ =>
        pose proof (uintValue_mono d a ltac:(lia));
        replace (10 * acc + 0) with (10 * acc) by lia;
        destruct (Z.gtb_spec a (2 ^ 64 - 1)); [lia|]; apply IHd; lia
    end.
Qed.

(** [ParseInt] reads back what [FormatInt] writes. *)
Lemma ParseInt_FormatInt (n : Z) :
  - 2 ^ 63 <= n < 2 ^ 63 -> ParseInt (FormatInt n) = inl n.
Proof.
  intros R. unfold FormatInt. destruct n as [|p|p]; [reflexivity | |];
    cbn [Z.to_int NilZero.string_of_int];
    pose proof (to_uint_not_Nil p) as NN;
    pose proof (uintValue_to_uint p) as V;
    assert (NilZero.string_of_uint (Pos.to_uint p) =
            NilEmpty.string_of_uint (Pos.to_uint p)) as ->
      by (destruct (Pos.to_uint p); congruence || reflexivity).
  - assert (parseDigits 0 (NilEmpty.string_of_uint (Pos.to_uint p))
            = inl (Z.pos p)) as PD
      by (rewrite parseDigits_uint; [now rewrite V | lia | rewrite V; lia]).
    destruct (Pos.to_uint p); try congruence;
      cbn [NilEmpty.string_of_uint] in *; unfold ParseInt;
      cbn [Ascii.eqb Bool.eqb orb]; rewrite PD;
      destruct (Z.geb_spec (Z.pos p) (2 ^ 63)); (lia || reflexivity).
  - assert (parseDigits 0 (NilEmpty.string_of_uint (Pos.to_uint p))
            = inl (Z.pos p)) as PD
      by (rewrite parseDigits_uint; [now rewrite V | lia | rewrite V; lia]).
    unfold ParseInt. cbn [Ascii.eqb Bool.eqb orb].
    destruct (Pos.to_uint p); try congruence;
      cbn [NilEmpty.string_of_uint] in *; rewrite PD;
      destruct (Z.gtb_spec (Z.pos p) (2 ^ 63)); (lia || reflexivity).
Qed.

Lemma allPlain_app (a b : string) : allPlain (a +:+ b) = allPlain a && allPlain b.
Proof.
  induction a as [|x a IH]; [reflexivity|].
  str_simpl. cbn [allPlain]. now rewrite IH, andb_assoc.
Qed.

Lemma allPlain_rev (s : string) : allPlain (rev s) = allPlain s.
Proof.
  induction s as [|x s IH]; [reflexivity|].
  rewrite rev_cons, allPlain_app, IH. cbn [allPlain].
  rewrite andb_true_r. apply andb_comm.
Qed.

Lemma allSpace_app (a b : string) : allSpace (a +:+ b) = allSpace a && allSpace b.
Proof.
  induction a as [|x a IH]; [reflexivity|].
  str_simpl. cbn [allSpace]. now rewrite IH, andb_assoc.
Qed.

Lemma allSpace_rev (s : string) : allSpace (rev s) = allSpace s.
Proof.
  induction s as [|x s IH]; [reflexivity|].
  rewrite rev_cons, allSpace_app, IH. cbn [allSpace].
  rewrite andb_true_r. apply andb_comm.
Qed.

Lemma allPlain_uint d : allPlain (NilEmpty.string_of_uint d) = true.
Proof. induction d; cbn [NilEmpty.string_of_uint allPlain]; auto. Qed.

Lemma allPlain_FormatInt (n : Z) : allPlain (FormatInt n) = true.
Proof.
  unfold FormatInt.
  destruct n as [|p|p]; [reflexivity | |];
    cbn [Z.to_int NilZero.string_of_int]; destruct (Pos.to_uint p);
    try reflexivity; cbn [NilZero.string_of_uint NilEmpty.string_of_uint allPlain];
    now rewrite ?allPlain_uint.
Qed.

Lemma space2_high a b :
  space2 a b = true -> 128 <= code a /\ 128 <= code b.
Proof.
  unfold space2. generalize (code a) (code b). intros x y.
  destruct x as [|x|x]; try (intros; discriminate).
  repeat (destruct x as [x|x|]; try (intros; discriminate)).
  destruct y as [|y|y]; try (intros; discriminate).
  repeat (destruct y as [y|y|]; try (intros; discriminate)); intros _; lia.
Qed.

Lemma space3_high a b c :
  space3 a b c = true -> 128 <= code a /\ 128 <= code b /\ 128 <= code c.
Proof.
  unfold space3. generalize (code a) (code b) (code c). intros x y z.
  destruct x as [|x|x]; try (intros; discriminate).
  repeat (destruct x as [x|x|]; try (intros; discriminate));
    (destruct y as [|y|y]; try (intros; discriminate));
    repeat (destruct y as [y|y|]; try (intros; discriminate)).
  all: first
    [ intros H; repeat split; try lia;
      destruct (Z.leb_spec 128 z) as [L|L]; [exact L|];
      cbn [andb orb] in H;
      repeat (apply orb_true_iff in H as [H|H]);
      apply Z.eqb_eq in H; lia
    | destruct z as [|z|z]; try (intros; discriminate);
      repeat (destruct z as [z|z|]; try (intros; discriminate));
      intros _; lia ].
Qed.

Lemma trimLeading_allSpace fwd (ws s : string) :
  allSpace ws = true -> trimLeading fwd (ws +:+ s) = trimLeading fwd s.
Proof.
  induction ws as [|c ws IH]; [reflexivity|]. cbn [allSpace].
  intros [C W]%andb_true_iff. str_simpl. cbn [trimLeading].
  now rewrite C, IH.
Qed.

Lemma trimLeading_plain fwd (c : ascii) (s : string) :
  plainByte c = true -> trimLeading fwd (String c s) = String c s.
Proof.
  unfold plainByte. intros [A B]%andb_true_iff.
  apply negb_true_iff in A. apply Z.ltb_lt in B.
  cbn [trimLeading]. rewrite A.
  destruct s as [|c2 s2]; [reflexivity|].
  assert ((if fwd then space2 c c2 else space2 c2 c) = false) as ->.
  { destruct fwd;
      match goal with |- ?x = false => destruct x eqn:E end;
      try reflexivity; apply space2_high in E; lia. }
  destruct s2 as [|c3 s3]; [reflexivity|].
  assert ((if fwd then space3 c c2 c3 else space3 c3 c2 c) = false) as ->.
  { destruct fwd;
      match goal with |- ?x = false => destruct x eqn:E end;
      try reflexivity; apply space3_high in E; lia. }
  reflexivity.
Qed.

Lemma trimLeading_allPlain fwd (s : string) :
  allPlain s = true -> trimLeading fwd s = s.
Proof.
  destruct s as [|c s]; [reflexivity|]. cbn [allPlain].
  intros [P _]%andb_true_iff. now apply trimLeading_plain.
Qed.

Lemma trimLeading_spaces fwd (ws : string) :
  allSpace ws = true -> trimLeading fwd ws = "".
Proof.
  intros W. rewrite <- (app_nil_r ws). now rewrite trimLeading_allSpace.
Qed.

(** [TrimSpace] removes the ASCII white space around a string of plain
    bytes (bytes below 128 that are not white space). *)
Lemma TrimSpace_plain (ws1 s ws2 : string) :
  allSpace ws1 = true -> allSpace ws2 = true -> allPlain s = true ->
  TrimSpace (ws1 +:+ s +:+ ws2) = s.
Proof.
  intros W1 W2 P. unfold TrimSpace.
  rewrite trimLeading_allSpace by assumption.
  destruct s as [|c s].
  - str_simpl. rewrite (trimLeading_spaces true ws2 W2). reflexivity.
  - pose proof P as P'. cbn [allPlain] in P'.
    apply andb_true_iff in P' as [Pc _]. str_simpl.
    rewrite trimLeading_plain by assumption.
    rewrite <- app_cons, rev_app.
    rewrite trimLeading_allSpace by now rewrite allSpace_rev.
    rewrite trimLeading_allPlain by now rewrite allPlain_rev.
    apply rev_involutive.
Qed.

End DecimalFacts.

(* ===================================================================== *)
(** * Invariants of [startWorker] *)
(* ===================================================================== *)

(** Case analysis on the membership in a trace given by its pieces. *)
Ltac inv_in H :=
  repeat (rewrite in_app_iff in H || cbn [In] in H);
  repeat match type of H with
         | _ \/ _ => destruct H as [H|H]
         | False => contradiction
         end; try discriminate H.

Section SupervisorSteps.

Variable cfg : Config.

(** One call of [startWorker] with a protocol and a delay that let it
    reach [startProcess], by what the run does. *)
Lemma startWorker_step r rest fs w st sp :
  Protocol w = "grpc" -> 0 <= delay w ->
  startWorker cfg (r :: rest) fs w st sp =
  let exec := EvExec (program w) (args w) (childEnv cfg w) (run_start r) in
  match run_start r with
  | inr e =>
      (Done (Some (Wrap "cannot start worker" (ErrOS e))), fs,
       sleepEvents w ++ [exec])
  | inl pid =>
      match run_mkdir r with
      | Some e =>
          (Done None, fs,
           (sleepEvents w ++ [exec]) ++ [EvLog LError (MsgCannotCreateDir e)])
      | None =>
          match run_write r with
          | Some e =>
              (Done None, fs,
               (sleepEvents w ++ [exec])
                 ++ [EvLog LError (MsgCannotWriteFile e)])
          | None =>
              match run_wait r with
              | inr e =>
                  (Done None, fsAtExit cfg w r pid fs,
                   ((sleepEvents w ++ [exec])
                      ++ [EvWriteFile (pidFile' cfg (directive w))
                            (Strconv.FormatInt pid)]
                      ++ (if st then [EvStarted pid] else []))
                     ++ [EvLog LError (MsgExitedWithError (ErrOS e))])
              | inl t =>
                  let fs' := fsAtExit cfg w r pid fs in
                  let w' := giveUp (penalise t w) in
                  if workerExists cfg fs' (directive w)
                  then
                    match startWorker cfg rest fs' w' st sp with
                    | (Done (Some e), fs'', tr) =>
                        (Done None, fs'',
                         runEvents cfg w st sp pid ++ EvRestart w' :: tr
                           ++ [EvLog LError (MsgCannotRestart e)])
                    | (_, fs'', tr) =>
                        (Done None, fs'',
                         runEvents cfg w st sp pid ++ EvRestart w' :: tr)
                    end
                  else (Done None, fs', runEvents cfg w st sp pid)
              end
          end
      end
  end.
Proof.
  intros P D.
  destruct (run_start r) as [pid|e] eqn:E1.
  2:{ apply String.eqb_eq in P. apply Z.ltb_ge in D.
      cbn [startWorker]. rewrite P, D, args_tl. cbn [negb].
      unfold startProcess. rewrite E1. reflexivity. }
  destruct (run_mkdir r) as [e|] eqn:E2.
  { apply String.eqb_eq in P. apply Z.ltb_ge in D.
    cbn [startWorker]. rewrite P, D, args_tl. cbn [negb].
    unfold startProcess. rewrite E1, E2. reflexivity. }
  destruct (run_write r) as [e|] eqn:E3.
  { apply String.eqb_eq in P. apply Z.ltb_ge in D.
    cbn [startWorker]. rewrite P, D, args_tl. cbn [negb].
    unfold startProcess. rewrite E1, E2, E3. reflexivity. }
  destruct (run_wait r) as [t|e] eqn:E4.
  2:{ apply String.eqb_eq in P. apply Z.ltb_ge in D.
      cbn [startWorker]. rewrite P, D, args_tl. cbn [negb].
      unfold startProcess, waitProcess. rewrite E1, E2, E3, E4. reflexivity. }
  rewrite (startWorker_exit cfg r rest fs w st sp pid t P D);
    [| now repeat split].
  cbv zeta. destruct (exit_handler_fields t w) as (_ & _ & _ & ->).
  reflexivity.
Qed.

(** A call that does not reach [startProcess]. *)
Lemma startWorker_refused script fs w st sp :
  Protocol w <> "grpc" \/ delay w < 0 ->
  exists e, startWorker cfg script fs w st sp = (Done (Some e), fs, []).
Proof.
  intros H. destruct (String.eqb (Protocol w) "grpc") eqn:E.
  - apply String.eqb_eq in E. destruct H as [H|H]; [congruence|].
    eexists. now apply startWorker_negative.
  - apply String.eqb_neq in E. eexists. now apply startWorker_unsupported.
Qed.

Lemma startWorker_unscripted fs w st sp :
  Protocol w = "grpc" -> 0 <= delay w ->
  startWorker cfg [] fs w st sp = (Unscripted, fs, sleepEvents w).
Proof.
  intros P D. apply String.eqb_eq in P. apply Z.ltb_ge in D.
  cbn [startWorker]. now rewrite P, D.
Qed.

End SupervisorSteps.

Section SupervisorInvariants.

Variable cfg : Config.

Lemma created_app a b : created (a ++ b) = created a ++ created b.
Proof. apply omap_app. Qed.

Lemma writes_app a b : writes (a ++ b) = writes a ++ writes b.
Proof. apply omap_app. Qed.

Lemma sleeps_app a b : sleeps (a ++ b) = sleeps a ++ sleeps b.
Proof. apply omap_app. Qed.

Lemma projections_sleepEvents w :
  created (sleepEvents w) = [] /\ writes (sleepEvents w) = [] /\
  restartDelays (sleepEvents w) = [] /\ launches (sleepEvents w) = [] /\
  sleeps (sleepEvents w) = if delay w >? 0 then [delay w] else [].
Proof. unfold sleepEvents. destruct (delay w >? 0); repeat split. Qed.

Lemma projections_runEvents w st sp pid :
  created (runEvents cfg w st sp pid) = [pid] /\
  writes (runEvents cfg w st sp pid) = [Strconv.FormatInt pid] /\
  sleeps (runEvents cfg w st sp pid) = if delay w >? 0 then [delay w] else [].
Proof.
  unfold runEvents. destruct (delay w >? 0), st, sp; repeat split.
Qed.

(** X1.  The pid record is written where [stopWorker] reads it: every
    file [startWorker] writes, restarts included, is the pid record of the
    worker at the path [stopWorker] computes (the two compute it with
    different calls of [filepath.Join]), and its content is the decimal pid
    of a process created in that call. *)
Theorem record_written_where_stop_reads script : forall fs w st sp path data,
  In (EvWriteFile path data) (startWorker cfg script fs w st sp).2 ->
  path = pidFile cfg (directive w) /\
  exists pid, data = Strconv.FormatInt pid /\
              In pid (created (startWorker cfg script fs w st sp).2).
Proof.
  assert (forall w path data, ~ In (EvWriteFile path data) (sleepEvents w)) as NS.
  { intros w path data H. unfold sleepEvents in H.
    destruct (delay w >? 0); inv_in H. }
  assert (forall w st sp pid path data,
            In (EvWriteFile path data) (runEvents cfg w st sp pid) ->
            path = pidFile cfg (directive w) /\ data = Strconv.FormatInt pid) as RE.
  { intros w st sp pid path data H. unfold runEvents in H.
    destruct (delay w >? 0), st, sp; inv_in H; injection H as <- <-;
      now rewrite pidFile_agree. }
  induction script as [|r rest IH]; intros fs w st sp path data.
  all: destruct (String.eqb_spec (Protocol w) "grpc") as [P|P];
    [|rewrite (startWorker_unsupported cfg _ fs w st sp P); intros []].
  all: destruct (Z.ltb_spec (delay w) 0) as [D|D];
    [rewrite (startWorker_negative cfg _ fs w st sp P D); intros []|].
  { rewrite startWorker_unscripted by assumption. intros H. now apply NS in H. }
  rewrite startWorker_step by assumption. cbv zeta.
  destruct (projections_sleepEvents w) as (C0 & _).
  destruct (run_start r) as [pid|e];
    [|cbn [snd]; intros H; inv_in H; now apply NS in H].
  destruct (run_mkdir r) as [e|];
    [cbn [snd]; intros H; inv_in H; now apply NS in H|].
  destruct (run_write r) as [e|];
    [cbn [snd]; intros H; inv_in H; now apply NS in H|].
  destruct (run_wait r) as [t|e].
  2:{ cbn [snd]. intros H. rewrite !created_app, C0.
      destruct st; inv_in H; try (now apply NS in H);
        injection H as <- <-; (split; [now rewrite pidFile_agree|]);
        exists pid; (split; [reflexivity | cbn; auto]). }
  destruct (projections_runEvents w st sp pid) as (C1 & _).
  destruct (exit_handler_fields t w) as (_ & _ & _ & Dir).
  destruct (workerExists _ _ _).
  - specialize (IH (fsAtExit cfg w r pid fs) (giveUp (penalise t w)) st sp
                   path data).
    rewrite Dir in IH.
    destruct (startWorker cfg rest _ _ st sp) as [[[[e|]|] fs''] tr];
      cbn [snd] in *; intros H; rewrite created_app, C1;
      change (created (EvRestart ?x :: ?l)) with (created l);
      rewrite ?created_app; inv_in H;
      try (apply RE in H as (-> & ->); split; [reflexivity|];
           exists pid; split; [reflexivity | cbn; auto]);
      destruct (IH H) as (-> & q & -> & I); (split; [reflexivity|]);
      exists q; (split; [reflexivity|]); cbn [app In];
      rewrite ?in_app_iff; auto.
  - cbn [snd]. intros H. apply RE in H as (-> & ->). split; [reflexivity|].
    exists pid. split; [reflexivity|]. rewrite C1. cbn; auto.
Qed.

(** X2.  An error of [startWorker] means that nothing was started: no
    process was created, no pid record written, no restart tried, and the
    file system is as before.  A nil result means that a process was
    created. *)
Theorem startWorker_result script fs w st sp :
  match startWorker cfg script fs w st sp with
  | (Done (Some e), fs', tr) =>
      fs' = fs /\ created tr = [] /\ writes tr = [] /\ restartDelays tr = []
  | (Done None, fs', tr) => exists pid more, created tr = pid :: more
  | (Unscripted, fs', tr) => script = [] /\ fs' = fs /\ launches tr = []
  end.
Proof.
  destruct (String.eqb (Protocol w) "grpc") eqn:P.
  2:{ apply String.eqb_neq in P.
      rewrite (startWorker_unsupported cfg script fs w st sp P). now repeat split. }
  apply String.eqb_eq in P.
  destruct (Z.ltb_spec (delay w) 0) as [D|D].
  { rewrite (startWorker_negative cfg script fs w st sp P D). now repeat split. }
  destruct (projections_sleepEvents w) as (C0 & W0 & R0 & L0 & _).
  destruct script as [|r rest].
  { rewrite startWorker_unscripted by assumption. now repeat split. }
  rewrite startWorker_step by assumption. cbv zeta.
  destruct (run_start r) as [pid|e].
  2:{ rewrite created_app, writes_app, restartDelays_app, C0, W0, R0.
      now repeat split. }
  destruct (run_mkdir r) as [e|].
  { exists pid, []. now rewrite !created_app, C0. }
  destruct (run_write r) as [e|].
  { exists pid, []. now rewrite !created_app, C0. }
  destruct (run_wait r) as [t|e].
  2:{ exists pid, []. rewrite !created_app, C0. now destruct st. }
  destruct (projections_runEvents w st sp pid) as (C1 & _).
  destruct (workerExists _ _ _).
  - destruct (startWorker cfg rest _ _ st sp) as [[[[e|]|] fs''] tr];
      eexists pid, _; rewrite created_app, C1; reflexivity.
  - exists pid, []. exact C1.
Qed.

(** The exit handler on a delay of [j] penalties. *)
Lemma exit_delay t w j :
  delay w = 5 * second * j -> 0 <= j <= 5 ->
  let j' := if t <? 1 * second then j + 1 else j in
  (j' <= 5 -> delay (giveUp (penalise t w)) = 5 * second * j') /\
  (j' = 6 -> delay (giveUp (penalise t w)) = -1).
Proof.
  intros D J. cbv zeta. destruct (Z.ltb_spec t (1 * second)) as [T|T].
  - destruct (fast_exit_delay t w j T D J) as (_ & _ & A & B).
    split; intros H; [apply A | apply B]; lia.
  - unfold giveUp, penalise. apply Z.ltb_ge in T. rewrite T.
    destruct (delay w >=? 30 * second) eqn:G.
    + apply Z.geb_le in G. rewrite D in G. unfold second in G. lia.
    + split; [auto | lia].
Qed.

(** X3.  [startWorker] never sleeps more than 25 seconds: from a delay of
    [j] penalties of five seconds, every sleep is a positive number of
    penalties between [j] and 5, and every delay of a restart is such a
    number or the sentinel [-1]. *)
Theorem delays_bounded script : forall fs w st sp j,
  delay w = 5 * second * j -> 0 <= j <= 5 ->
  Forall (fun d => exists i, d = 5 * second * i /\ j <= i <= 5 /\ 1 <= i)
         (sleeps (startWorker cfg script fs w st sp).2) /\
  Forall (fun d => d = -1 \/ exists i, d = 5 * second * i /\ j <= i <= 5)
         (restartDelays (startWorker cfg script fs w st sp).2).
Proof.
  induction script as [|r rest IH]; intros fs w st sp j D J.
  - destruct (String.eqb (Protocol w) "grpc") eqn:P.
    2:{ apply String.eqb_neq in P.
        rewrite (startWorker_unsupported cfg [] fs w st sp P).
        split; constructor. }
    apply String.eqb_eq in P.
    rewrite startWorker_unscripted by (auto; rewrite D; unfold second; lia).
    cbn [snd]. destruct (projections_sleepEvents w) as (_ & _ & -> & _ & ->).
    split; [|constructor].
    destruct (Z.gtb_spec (delay w) 0) as [G|G]; constructor; [|constructor].
    exists j. rewrite D in G. unfold second in G. repeat split; auto; lia.
  - destruct (String.eqb (Protocol w) "grpc") eqn:P.
    2:{ apply String.eqb_neq in P.
        rewrite (startWorker_unsupported cfg _ fs w st sp P).
        split; constructor. }
    apply String.eqb_eq in P.
    assert (0 <= delay w) as D0 by (rewrite D; unfold second; lia).
    rewrite startWorker_step by assumption. cbv zeta.
    destruct (projections_sleepEvents w) as (_ & _ & R0 & _ & S0).
    assert (Forall (fun d => exists i, d = 5 * second * i /\ j <= i <= 5 /\ 1 <= i)
              (sleeps (sleepEvents w))) as FS.
    { rewrite S0. destruct (Z.gtb_spec (delay w) 0) as [G|G];
        constructor; [|constructor].
      exists j. rewrite D in G. unfold second in G. repeat split; auto; lia. }
    destruct (run_start r) as [pid|e]; cbn [snd].
    2:{ rewrite sleeps_app, restartDelays_app, R0. cbn.
        rewrite app_nil_r. split; [exact FS | constructor]. }
    destruct (run_mkdir r) as [e|]; cbn [snd].
    { rewrite !sleeps_app, !restartDelays_app, R0. cbn.
      rewrite !app_nil_r. split; [exact FS | constructor]. }
    destruct (run_write r) as [e|]; cbn [snd].
    { rewrite !sleeps_app, !restartDelays_app, R0. cbn.
      rewrite !app_nil_r. split; [exact FS | constructor]. }
    destruct (run_wait r) as [t|e]; cbn [snd].
    2:{ rewrite !sleeps_app, !restartDelays_app, R0.
        destruct st; cbn; rewrite !app_nil_r; (split; [exact FS | constructor]). }
    destruct (projections_runEvents w st sp pid) as (_ & _ & S1).
    pose proof (restartDelays_runEvents cfg w st sp pid) as R1.
    rewrite <- S0 in S1.
    destruct (workerExists _ _ _); cbn [snd].
    2:{ rewrite S1, R1. split; [exact FS | constructor]. }
    destruct (exit_delay t w j D J) as (A & B). cbv zeta in A, B.
    set (j' := if t <? 1 * second then j + 1 else j) in *.
    set (w' := giveUp (penalise t w)) in *.
    assert (j <= j' <= 6) as J'
      by (subst j'; destruct (t <? 1 * second); lia).
    destruct (Z.eq_dec j' 6) as [E6|N6].
    + destruct (startWorker_refused cfg rest (fsAtExit cfg w r pid fs) w' st sp)
        as (e & ->); [right; rewrite (B E6); lia|].
      cbn [snd]. rewrite sleeps_app, restartDelays_app, S1, R1. cbn.
      rewrite app_nil_r. split; [exact FS|].
      constructor; [left; exact (B E6) | constructor].
    + destruct (IH (fsAtExit cfg w r pid fs) w' st sp j' (A ltac:(lia))
                  ltac:(lia)) as (IS & IR).
      assert (Forall (fun d => exists i, d = 5 * second * i /\ j <= i <= 5 /\ 1 <= i)
                (sleeps (startWorker cfg rest (fsAtExit cfg w r pid fs) w' st sp).2))
        as IS'.
      { eapply Forall_impl; [exact IS|]. cbv beta.
        intros d (i & -> & I1 & I2). exists i. repeat split; auto; lia. }
      assert (Forall (fun d => d = -1 \/ exists i, d = 5 * second * i /\ j <= i <= 5)
                (restartDelays
                   (startWorker cfg rest (fsAtExit cfg w r pid fs) w' st sp).2))
        as IR'.
      { eapply Forall_impl; [exact IR|]. cbv beta.
        intros d [->|(i & -> & I1)]; [now left|].
        right. exists i. split; auto. lia. }
      assert (delay w' = -1 \/ exists i, delay w' = 5 * second * i /\ j <= i <= 5)
        as DW by (right; exists j'; split; [apply A|]; lia).
      destruct (startWorker cfg rest _ w' st sp) as [[[[e|]|] fs''] tr];
        cbn [snd] in *;
        rewrite sleeps_app, restartDelays_app, S1, R1; cbn;
        rewrite ?sleeps_app, ?restartDelays_app; cbn; rewrite ?app_nil_r;
        (split; [apply Forall_app; split; assumption
                | constructor; assumption]).
Qed.

Lemma quietExit_step r t fs w st sp rest :
  Protocol w = "grpc" -> 0 <= delay w -> quietExit r t ->
  Stat fs (configFile cfg (directive w)) = None ->
  exists pid fs',
    Stat fs' (configFile cfg (directive w)) = None /\
    startWorker cfg (r :: rest) fs w st sp =
    match startWorker cfg rest fs' (giveUp (penalise t w)) st sp with
    | (Done (Some e), fs'', tr) =>
        (Done None, fs'',
         runEvents cfg w st sp pid
           ++ EvRestart (giveUp (penalise t w)) :: tr
           ++ [EvLog LError (MsgCannotRestart e)])
    | (_, fs'', tr) =>
        (Done None, fs'',
         runEvents cfg w st sp pid ++ EvRestart (giveUp (penalise t w)) :: tr)
    end.
Proof.
  intros P D (pid & X & Q) S.
  exists pid, (fsAtExit cfg w r pid fs).
  assert (Stat (fsAtExit cfg w r pid fs) (configFile cfg (directive w)) = None)
    as S'.
  { unfold fsAtExit. rewrite Q. cbn [apply_ops fold_left].
    now apply Stat_insert_regular. }
  split; [exact S'|].
  rewrite (startWorker_exit cfg r rest fs w st sp pid t P D X). cbv zeta.
  destruct (exit_handler_fields t w) as (_ & _ & _ & ->).
  rewrite workerExists_Stat, S'. reflexivity.
Qed.

(** X4.  Penalties add up over the life of the worker: an exit after less
    than a second of system time adds five seconds to the delay of the
    restart, an exit after a second or more neither adds to it nor resets
    it; and each of these exits was the exit of a process that was
    created. *)
Theorem penalties_accumulate rest st sp : forall script times fs w j,
  Protocol w = "grpc" -> delay w = 5 * second * j -> 0 <= j ->
  Forall2 quietExit script times ->
  Forall (fun i => i <= 5) (penalties j times) ->
  Stat fs (configFile cfg (directive w)) = None ->
  take (length script)
       (restartDelays (startWorker cfg (script ++ rest) fs w st sp).2) =
    map (fun i => 5 * second * i) (penalties j times) /\
  (length script <= length (created (startWorker cfg (script ++ rest) fs w st sp).2))%nat.
Proof.
  induction script as [|r script IH]; intros times fs w j P D J F2 F5 S.
  - inversion F2; subst. split; [reflexivity | cbn; lia].
  - inversion F2 as [|? t ? ts Q F2']; subst.
    cbn [penalties] in F5. inversion F5 as [|? ? J5 F5']; subst.
    set (j' := if t <? 1 * second then j + 1 else j) in *.
    assert (j <= j') as JJ by (subst j'; destruct (t <? 1 * second); lia).
    assert (0 <= delay w) as D0 by (rewrite D; unfold second; lia).
    destruct (quietExit_step r t fs w st sp (script ++ rest) P D0 Q S)
      as (pid & fs' & S' & E).
    cbn [app]. rewrite E. clear E.
    destruct (exit_delay t w j D ltac:(lia)) as (A & _). cbv zeta in A.
    fold j' in A. specialize (A J5).
    destruct (exit_handler_fields t w) as (_ & P' & _ & Dir).
    set (w' := giveUp (penalise t w)) in *.
    destruct (IH ts fs' w' j') as (IH1 & IH2);
      [ now rewrite P' | exact A | lia | assumption | assumption
      | now rewrite Dir | ].
    destruct (projections_runEvents w st sp pid) as (C1 & _).
    pose proof (restartDelays_runEvents cfg w st sp pid) as R1.
    destruct (startWorker cfg (script ++ rest) fs' w' st sp)
      as [[[[e|]|] fs''] tr]; cbn [snd] in *;
      rewrite restartDelays_app, created_app, R1, C1; cbn [app];
      change (restartDelays (EvRestart w' :: ?l)) with (delay w' :: restartDelays l);
      change (created (EvRestart w' :: ?l)) with (created l);
      rewrite ?restartDelays_app, ?created_app; cbn [restartDelays created omap];
      rewrite ?app_nil_r; cbn [length take penalties map]; fold j';
      rewrite IH1, A; (split; [reflexivity | cbn [length]; lia]).
Qed.

(** [startWorker] on the file system, by induction on the runs. *)
Lemma startWorker_fs script : forall fs w st sp,
  Forall (fun r => run_during r = []) script ->
  let '(_, fs', tr) := startWorker cfg script fs w st sp in
  (forall p, p <> pidFile cfg (directive w) -> fs' !! p = fs !! p) /\
  fs' !! pidFile cfg (directive w) =
    match last (writes tr) with
    | Some data => Some (Regular data)
    | None => fs !! pidFile cfg (directive w)
    end.
Proof.
  induction script as [|r rest IH]; intros fs w st sp F.
  - destruct (String.eqb (Protocol w) "grpc") eqn:P.
    2:{ apply String.eqb_neq in P.
        rewrite (startWorker_unsupported cfg _ fs w st sp P). now split. }
    apply String.eqb_eq in P.
    destruct (Z.ltb_spec (delay w) 0) as [D|D].
    { rewrite (startWorker_negative cfg _ fs w st sp P D). now split. }
    rewrite startWorker_unscripted by assumption.
    destruct (projections_sleepEvents w) as (_ & -> & _). now split.
  - inversion F as [|? ? Q F']; subst.
    destruct (String.eqb (Protocol w) "grpc") eqn:P.
    2:{ apply String.eqb_neq in P.
        rewrite (startWorker_unsupported cfg _ fs w st sp P). now split. }
    apply String.eqb_eq in P.
    destruct (Z.ltb_spec (delay w) 0) as [D|D].
    { rewrite (startWorker_negative cfg _ fs w st sp P D). now split. }
    rewrite startWorker_step by assumption. cbv zeta.
    destruct (projections_sleepEvents w) as (_ & W0 & _).
    assert (forall pid, fsAtExit cfg w r pid fs =
              <[pidFile cfg (directive w) := Regular (Strconv.FormatInt pid)]> fs)
      as FE.
    { intros pid. unfold fsAtExit. rewrite Q, pidFile_agree. reflexivity. }
    destruct (run_start r) as [pid|e].
    2:{ rewrite writes_app, W0. now split. }
    destruct (run_mkdir r) as [e|].
    { rewrite !writes_app, W0. now split. }
    destruct (run_write r) as [e|].
    { rewrite !writes_app, W0. now split. }
    assert (forall p, p <> pidFile cfg (directive w) ->
              fsAtExit cfg w r pid fs !! p = fs !! p) as FR.
    { intros p NE. rewrite FE. now rewrite lookup_insert_ne. }
    assert (fsAtExit cfg w r pid fs !! pidFile cfg (directive w) =
            Some (Regular (Strconv.FormatInt pid))) as FP.
    { rewrite FE. apply lookup_insert_eq. }
    destruct (run_wait r) as [t|e].
    2:{ rewrite !writes_app, W0. split; [exact FR|].
        rewrite FP. now destruct st. }
    destruct (projections_runEvents w st sp pid) as (_ & W1 & _).
    destruct (workerExists _ _ _).
    2:{ rewrite W1. split; [exact FR | exact FP]. }
    destruct (exit_handler_fields t w) as (_ & _ & _ & Dir).
    specialize (IH (fsAtExit cfg w r pid fs) (giveUp (penalise t w)) st sp F').
    rewrite Dir in IH.
    destruct (startWorker cfg rest _ _ st sp) as [[o fs''] tr].
    destruct IH as (I1 & I2).
    assert ((forall p, p <> pidFile cfg (directive w) -> fs'' !! p = fs !! p) /\
            fs'' !! pidFile cfg (directive w) =
            match last (Strconv.FormatInt pid :: writes tr) with
            | Some data => Some (Regular data)
            | None => fs !! pidFile cfg (directive w)
            end) as K.
    { split.
      - intros p NE. rewrite I1 by assumption. now apply FR.
      - rewrite I2, last_cons. destruct (last (writes tr)); [reflexivity|].
        exact FP. }
    destruct o as [[e|]|];
      rewrite writes_app, W1; cbn [app];
      change (writes (EvRestart ?x :: ?l)) with (writes l);
      rewrite ?writes_app; cbn [writes omap]; rewrite ?app_nil_r; exact K.
Qed.

(** X5.  While nobody else touches the file system, [startWorker] and the
    restarts it makes change no path but the pid record of the worker, and
    that record holds the last pid written: the pid of the process created
    last, not of one that has exited before. *)
Theorem startWorker_frame script fs w st sp :
  Forall (fun r => run_during r = []) script ->
  let r := startWorker cfg script fs w st sp in
  (forall p, p <> pidFile cfg (directive w) -> r.1.2 !! p = fs !! p) /\
  r.1.2 !! pidFile cfg (directive w) =
    match last (writes r.2) with
    | Some data => Some (Regular data)
    | None => fs !! pidFile cfg (directive w)
    end.
Proof.
  intros F r. pose proof (startWorker_fs script fs w st sp F) as H. subst r.
  destruct (startWorker cfg script fs w st sp) as [[o fs'] tr]. exact H.
Qed.

End SupervisorInvariants.

Lemma record_written_where_stop_reads_witness :
  "/var/run/yggdrasil/workers/echo.pid" = pidFile Example.cfg "echo" /\
  exists pid, "102" = Strconv.FormatInt pid /\
              In pid (created (startWorker Example.cfg
                                 (map Example.fast [101; 102])
                                 Example.installed Example.echo false true).2).
Proof.
  apply (record_written_where_stop_reads Example.cfg
           (map Example.fast [101; 102]) Example.installed Example.echo
           false true "/var/run/yggdrasil/workers/echo.pid" "102").
  vm_compute. auto 20.
Defined.

Lemma delays_bounded_witness :
  let tr := (startWorker Example.cfg (map Example.fast [101; 102; 103])
               Example.installed Example.echo false true).2 in
  Forall (fun d => exists i, d = 5 * second * i /\ 0 <= i <= 5 /\ 1 <= i)
         (sleeps tr) /\
  Forall (fun d => d = -1 \/ exists i, d = 5 * second * i /\ 0 <= i <= 5)
         (restartDelays tr).
Proof.
  exact (delays_bounded Example.cfg (map Example.fast [101; 102; 103])
           Example.installed Example.echo false true 0 eq_refl ltac:(lia)).
Defined.

Lemma penalties_accumulate_witness :
  let slow pid := {| run_start := inl pid; run_mkdir := None;
                     run_write := None; run_during := [];
                     run_wait := inl (2 * second) |} in
  let script := [slow 201; Example.fast 202; slow 203] in
  let tr := (startWorker Example.cfg (script ++ []) Example.installed
               Example.echo false true).2 in
  take 3 (restartDelays tr) = [0; 5 * second; 5 * second] /\
  (3 <= length (created tr))%nat.
Proof.
  intros slow script tr.
  assert (Forall2 quietExit script [2 * second; 1000; 2 * second]) as Q.
  { repeat constructor; eexists; (split; [repeat split|]); reflexivity. }
  assert (Forall (fun i => i <= 5)
            (penalties 0 [2 * second; 1000; 2 * second])) as F.
  { vm_compute. repeat constructor; discriminate. }
  exact (penalties_accumulate Example.cfg [] false true script
           [2 * second; 1000; 2 * second] Example.installed Example.echo 0
           eq_refl eq_refl ltac:(lia) Q F eq_refl).
Defined.

Lemma startWorker_frame_witness :
  let r := startWorker Example.cfg [Example.fast 101] Example.installed
             Example.echo false true in
  r.1.2 !! "/etc/yggdrasil/workers/echo.toml" = Some (Regular Example.echoToml) /\
  r.1.2 !! "/var/run/yggdrasil/workers/echo.pid" = Some (Regular "101").
Proof.
  intros r.
  assert (Forall (fun r => run_during r = []) [Example.fast 101]) as F
    by (repeat constructor).
  destruct (startWorker_frame Example.cfg [Example.fast 101] Example.installed
              Example.echo false true F) as [A B].
  split.
  - refine (eq_trans (A "/etc/yggdrasil/workers/echo.toml" _) eq_refl).
    vm_compute. intros H. discriminate H.
  - vm_compute in B. vm_compute. exact B.
Defined.

(* ===================================================================== *)
(** * Facts about [stopWorker] *)
(* ===================================================================== *)

Section StopFacts.

Variable cfg : Config.

(** [stopWorker] by what it finds. *)
Lemma stopWorker_eq k (fs : gmap string node) name :
  stopWorker cfg k fs name =
  let record := pidFile cfg name in
  match fs !! record with
  | None => (Some (Wrap "cannot read file" (ErrOS ENOENT)), fs, [])
  | Some (Unverifiable f) =>
      (Some (Wrap "cannot read file" (ErrOS (errno_of_fault f))), fs, [])
  | Some (Regular data) =>
      match Strconv.ParseInt (Strings.TrimSpace data) with
      | inr e => (Some (Wrap "cannot parse data" (ErrNum e)), fs, [])
      | inl pid =>
          match sigterm k pid with
          | Some e => (Some (Wrap "cannot stop worker" (ErrOS e)), fs, [])
          | None =>
              match unlink k record with
              | Some e =>
                  (Some (Wrap "cannot remove file" (ErrOS e)), fs, [EvSignal pid])
              | None =>
                  (None, delete record fs, [EvSignal pid; EvRemove record])
              end
          end
      end
  end.
Proof.
  unfold stopWorker. fold (pidFile cfg name). cbv zeta.
  unfold ReadFile, stopProcess, Remove.
  destruct (fs !! pidFile cfg name) as [[data|f]|]; try reflexivity.
  destruct (Strconv.ParseInt _) as [pid|e]; [|reflexivity].
  destruct (sigterm k pid); [reflexivity|].
  destruct (unlink k _); reflexivity.
Qed.

(** [stopWorker] on the file system and the trace, case by case. *)
Lemma stopWorker_frame k (fs : gmap string node) name :
  let record := pidFile cfg name in
  let '(err, fs', tr) := stopWorker cfg k fs name in
  (forall p, p <> record -> fs' !! p = fs !! p) /\
  (err = None -> fs' = delete record fs /\
                 exists pid, tr = [EvSignal pid; EvRemove record]) /\
  (err <> None -> fs' = fs /\ (tr = [] \/ exists pid, tr = [EvSignal pid])) /\
  (forall pid, In pid (signals tr) ->
     signals tr = [pid] /\ sigterm k pid = None /\
     exists data, fs !! record = Some (Regular data) /\
                  Strconv.ParseInt (Strings.TrimSpace data) = inl pid).
Proof.
  intros record. rewrite stopWorker_eq. cbv zeta. fold record.
  destruct (fs !! record) as [[data|f]|] eqn:L;
    try (split; [auto|]; split; [intros X; discriminate X|]; split;
         [intros _; split; [reflexivity | left; reflexivity]|];
         cbn; intros ? X; contradiction).
  destruct (Strconv.ParseInt _) as [pid|e] eqn:PI;
    try (split; [auto|]; split; [intros X; discriminate X|]; split;
         [intros _; split; [reflexivity | left; reflexivity]|];
         cbn; intros ? X; contradiction).
  destruct (sigterm k pid) eqn:SG;
    try (split; [auto|]; split; [intros X; discriminate X|]; split;
         [intros _; split; [reflexivity | left; reflexivity]|];
         cbn; intros ? X; contradiction).
  destruct (unlink k record) eqn:U.
  - split; [auto|]. split; [congruence|].
    split; [intros _; split; [reflexivity | right; eauto]|].
    cbn. intros q [<-|[]]. repeat split; eauto.
  - split; [intros p NE; now rewrite lookup_delete_ne|].
    split; [intros _; split; [reflexivity | eauto]|]. split; [congruence|].
    cbn. intros q [<-|[]]. repeat split; eauto.
Qed.

Lemma signals_app a b : signals (a ++ b) = signals a ++ signals b.
Proof. apply omap_app. Qed.

(** What a stop contributes to a trace. *)
Lemma stopWorker_trace k (fs : gmap string node) name :
  let tr := (stopWorker cfg k fs name).2 in
  (length (signals tr) <= 1)%nat /\
  forall x, In x tr -> (exists pid, x = EvSignal pid) \/ exists p, x = EvRemove p.
Proof.
  rewrite stopWorker_eq. cbv zeta.
  destruct (fs !! pidFile cfg name) as [[data|f]|];
    try (cbn; split; [lia | now intros ? []]).
  destruct (Strconv.ParseInt _) as [pid|e];
    try (cbn; split; [lia | now intros ? []]).
  destruct (sigterm k pid); try (cbn; split; [lia | now intros ? []]).
  destruct (unlink k _); cbn; (split; [lia|]); intros x; intuition eauto.
Qed.

(** X6.  [stopWorker] touches no path of the file system but the pid
    record, leaves the file system as it is when it returns an error (also
    when the signal was sent and the removal failed), and signals at most
    one pid: the one the record holds, and only when the kernel delivers
    the signal. *)
Theorem stopWorker_touches_only_the_record k (fs : gmap string node) name :
  let r := stopWorker cfg k fs name in
  (forall p, p <> pidFile cfg name -> r.1.2 !! p = fs !! p) /\
  (r.1.1 <> None -> r.1.2 = fs) /\
  (r.1.1 = None -> r.1.2 = delete (pidFile cfg name) fs) /\
  (length (signals r.2) <= 1)%nat /\
  (forall pid, In pid (signals r.2) ->
     sigterm k pid = None /\
     exists data, fs !! pidFile cfg name = Some (Regular data) /\
                  Strconv.ParseInt (Strings.TrimSpace data) = inl pid).
Proof.
  intros r. pose proof (stopWorker_frame k fs name) as F.
  pose proof (stopWorker_trace k fs name) as (L & _).
  cbv zeta in F. subst r.
  destruct (stopWorker cfg k fs name) as [[err fs'] tr].
  destruct F as (A & B & C & D). cbn [fst snd] in *.
  split; [exact A|]. split; [intros H; exact (proj1 (C H))|].
  split; [intros H; exact (proj1 (B H))|]. split; [exact L|].
  intros pid H. destruct (D pid H) as (_ & S & X). now split.
Qed.

(** X7.  A second stop after a stop that succeeded finds no record: it
    returns an error that wraps "no such file", signals nothing and changes
    nothing. *)
Theorem stopWorker_twice k (fs fs' : gmap string node) name tr :
  stopWorker cfg k fs name = (None, fs', tr) ->
  stopWorker cfg k fs' name =
  (Some (Wrap "cannot read file" (ErrOS ENOENT)), fs', []).
Proof.
  intros H. pose proof (stopWorker_frame k fs name) as F. cbv zeta in F.
  rewrite H in F. destruct F as (_ & S & _). destruct (S eq_refl) as (-> & _).
  rewrite stopWorker_eq. cbv zeta. now rewrite lookup_delete_eq.
Qed.

(** The record round trip: a record that holds the decimal pid, with ASCII
    white space around it or not, makes [stopWorker] signal that pid. *)
Lemma stopWorker_reads_record k (fs : gmap string node) name pid ws1 ws2 :
  - 2 ^ 63 <= pid < 2 ^ 63 ->
  allSpace ws1 = true -> allSpace ws2 = true ->
  fs !! pidFile cfg name =
    Some (Regular (ws1 +:+ Strconv.FormatInt pid +:+ ws2)) ->
  Strconv.ParseInt
    (Strings.TrimSpace (ws1 +:+ Strconv.FormatInt pid +:+ ws2)) = inl pid /\
  (sigterm k pid = None -> unlink k (pidFile cfg name) = None ->
   stopWorker cfg k fs name =
   (None, delete (pidFile cfg name) fs,
    [EvSignal pid; EvRemove (pidFile cfg name)])).
Proof.
  intros R W1 W2 L.
  assert (Strconv.ParseInt
            (Strings.TrimSpace (ws1 +:+ Strconv.FormatInt pid +:+ ws2)) = inl pid)
    as PI.
  { rewrite DecimalFacts.TrimSpace_plain;
      auto using DecimalFacts.allPlain_FormatInt.
    now apply DecimalFacts.ParseInt_FormatInt. }
  split; [exact PI|]. intros SG U.
  rewrite stopWorker_eq. cbv zeta. now rewrite L, PI, SG, U.
Qed.

(** X8.  [stopWorker] after [startWorker]: while nobody else touches the
    file system, the stop signals the pid [startWorker] wrote last, the pid
    of the process that runs now, and removes the record. *)
Theorem stop_after_start script fs w st sp k pid :
  Forall (fun r => run_during r = []) script ->
  - 2 ^ 63 <= pid < 2 ^ 63 ->
  let r := startWorker cfg script fs w st sp in
  last (writes r.2) = Some (Strconv.FormatInt pid) ->
  sigterm k pid = None -> unlink k (pidFile cfg (directive w)) = None ->
  stopWorker cfg k r.1.2 (directive w) =
  (None, delete (pidFile cfg (directive w)) r.1.2,
   [EvSignal pid; EvRemove (pidFile cfg (directive w))]).
Proof.
  intros Q R r. pose proof (startWorker_fs cfg script fs w st sp Q) as F.
  subst r. destruct (startWorker cfg script fs w st sp) as [[o fs'] tr].
  cbn [fst snd]. destruct F as (_ & F). intros L SG U. rewrite L in F.
  apply (stopWorker_reads_record k fs' (directive w) pid "" ""); auto.
  now rewrite StrFacts.app_nil_r.
Qed.

End StopFacts.

Lemma stopWorker_twice_witness :
  let record := "/var/run/yggdrasil/workers/echo.pid" in
  let tracked : gmap string node := {[ record := Regular "4242" ]} in
  stopWorker Example.cfg Example.kernel (delete record tracked) "echo" =
  (Some (Wrap "cannot read file" (ErrOS ENOENT)), delete record tracked, []).
Proof.
  intros record tracked.
  apply (stopWorker_twice Example.cfg Example.kernel tracked
           (delete record tracked) "echo"
           [EvSignal 4242; EvRemove record]).
  vm_compute. reflexivity.
Defined.

Lemma stop_after_start_witness :
  let r := startWorker Example.cfg [Example.fast 4242] Example.installed
             Example.echo false true in
  stopWorker Example.cfg Example.kernel r.1.2 "echo" =
  (None, delete "/var/run/yggdrasil/workers/echo.pid" r.1.2,
   [EvSignal 4242; EvRemove "/var/run/yggdrasil/workers/echo.pid"]).
Proof.
  intros r.
  assert (Forall (fun r => run_during r = []) [Example.fast 4242]) as F
    by (repeat constructor).
  exact (stop_after_start Example.cfg [Example.fast 4242] Example.installed
           Example.echo false true Example.kernel 4242 F ltac:(lia)
           eq_refl eq_refl eq_refl).
Defined.

(* ===================================================================== *)
(** * Facts about [stopWorkers] *)
(* ===================================================================== *)

Section ShutdownFacts.

Variable cfg : Config.

Lemma stripSuffix_sound suf : forall s p,
  Strings.stripSuffix suf s = Some p -> p +:+ suf = s.
Proof.
  induction s as [|c s IH]; intros p; cbn [Strings.stripSuffix].
  - destruct (String.eqb "" suf) eqn:E; [|discriminate].
    apply String.eqb_eq in E. now intros [= <-].
  - destruct (String.eqb (String c s) suf) eqn:E.
    + apply String.eqb_eq in E. now intros [= <-].
    + destruct (Strings.stripSuffix suf s) as [q|]; [|discriminate].
      cbn [option_map]. intros [= <-]. str_simpl. now rewrite (IH q).
Qed.

(** The record [stopWorkers] reads for an entry is the entry itself. *)
Lemma listed_record name :
  isPidName name = true ->
  pidFile cfg (Strings.TrimSuffix name ".pid") =
  Filepath.Join [LocalstateDir cfg; "run"; LongName cfg; "workers"; name].
Proof.
  unfold isPidName, Strings.HasSuffix, Strings.TrimSuffix, pidFile.
  destruct (Strings.stripSuffix ".pid" name) as [p|] eqn:E; [|discriminate].
  intros _. now rewrite (stripSuffix_sound _ _ _ E).
Qed.

Lemma stopEach_filter k infos : forall fs,
  stopEach cfg k infos fs = stopEach cfg k (List.filter isPidName infos) fs.
Proof.
  induction infos as [|name rest IH]; intros fs; [reflexivity|].
  cbn [stopEach List.filter]. unfold isPidName at 1.
  destruct (Strings.HasSuffix name ".pid") eqn:H; [|apply IH].
  cbn [stopEach]. rewrite H.
  destruct (stopWorker cfg k fs _) as [[[e|] fs'] tr]; [reflexivity|].
  now rewrite IH.
Qed.

Lemma stopEach_success k infos : forall fs fs' tr,
  stopEach cfg k infos fs = (None, fs', tr) ->
  (forall p, fs !! p = None -> fs' !! p = None) /\
  (forall name, In name infos -> isPidName name = true ->
     fs' !! Filepath.Join [LocalstateDir cfg; "run"; LongName cfg; "workers";
                           name] = None) /\
  (forall p,
     (forall name, In name infos -> isPidName name = true ->
        p <> Filepath.Join [LocalstateDir cfg; "run"; LongName cfg; "workers";
                            name]) ->
     fs' !! p = fs !! p) /\
  length (signals tr) = length (List.filter isPidName infos).
Proof.
  induction infos as [|name rest IH]; intros fs fs' tr.
  - cbn [stopEach]. intros [= <- <-]. repeat split; auto. intros ? [].
  - cbn [stopEach List.filter]. unfold isPidName at 3.
    destruct (Strings.HasSuffix name ".pid") eqn:H.
    + pose proof (stopWorker_frame cfg k fs (Strings.TrimSuffix name ".pid")) as F.
      cbv zeta in F.
      destruct (stopWorker cfg k fs _) as [[[e|] fs1] tr1]; [discriminate|].
      destruct F as (_ & OK & _ & _).
      destruct (OK eq_refl) as (-> & pid & ->).
      destruct (stopEach cfg k rest _) as [[err fs2] tr2] eqn:E.
      intros [= -> -> <-].
      destruct (IH _ _ _ E) as (M & G & FR & N).
      rewrite listed_record in * by exact H.
      split; [|split; [|split]].
      * intros p Z. apply M.
        destruct (decide (Filepath.Join [LocalstateDir cfg; "run"; LongName cfg;
                                         "workers"; name] = p)) as [<-|NE];
          [apply lookup_delete_eq | now rewrite lookup_delete_ne].
      * intros n [<-|I] Pn; [|now apply G].
        apply M. apply lookup_delete_eq.
      * intros p NP. rewrite FR.
        -- apply lookup_delete_ne. intros Q. symmetry in Q. revert Q.
           apply NP; [now left | exact H].
        -- intros n I Pn. apply NP; [now right | exact Pn].
      * change (S (length (signals tr2)) = S (length (List.filter isPidName rest))).
        now rewrite N.
    + intros E. destruct (IH _ _ _ E) as (M & G & FR & N).
      split; [exact M|]. split; [|split; [|exact N]].
      * intros n [<-|I] Pn; [unfold isPidName in Pn; congruence | now apply G].
      * intros p NP. apply FR. intros n I Pn. apply NP; [now right | exact Pn].
Qed.

(** A failure of [stopWorkers] is the failure of one [stopWorker]: the
    entries before it were stopped, the entries after it are not looked
    at. *)
Lemma stopEach_failure k infos : forall fs e fs' tr,
  stopEach cfg k infos fs = (Some e, fs', tr) ->
  exists l1 name l2 tr1 e' tr2,
    infos = l1 ++ name :: l2 /\ isPidName name = true /\
    stopEach cfg k l1 fs = (None, fs', tr1) /\
    stopWorker cfg k fs' (Strings.TrimSuffix name ".pid") = (Some e', fs', tr2) /\
    e = Wrap "cannot stop worker" e' /\ tr = tr1 ++ tr2 /\
    (length (signals tr2) <= 1)%nat.
Proof.
  induction infos as [|name rest IH]; intros fs e fs' tr; [discriminate|].
  cbn [stopEach].
  destruct (Strings.HasSuffix name ".pid") eqn:H.
  - pose proof (stopWorker_frame cfg k fs (Strings.TrimSuffix name ".pid")) as F.
    cbv zeta in F.
    destruct (stopWorker cfg k fs _) as [[[e1|] fs1] tr1] eqn:SW.
    + intros [= <- <- <-]. destruct F as (_ & _ & F & _).
      destruct (F ltac:(discriminate)) as (-> & T).
      exists [], name, rest, [], e1, tr1. cbn [stopEach app].
      repeat split; auto.
      destruct T as [->|(pid & ->)]; cbn; lia.
    + destruct (stopEach cfg k rest fs1) as [[err fs2] tr2] eqn:E.
      intros [= -> -> <-].
      destruct (IH _ _ _ _ E) as (l1 & n & l2 & t1 & e' & t2 & -> & Pn & E1 & SW' & -> & -> & Len).
      exists (name :: l1), n, l2, (tr1 ++ t1), e', t2.
      cbn [stopEach app]. rewrite H, SW, E1.
      repeat split; auto. now rewrite app_assoc.
  - intros E.
    destruct (IH _ _ _ _ E) as (l1 & n & l2 & t1 & e' & t2 & -> & Pn & E1 & SW' & -> & -> & Len).
    exists (name :: l1), n, l2, t1, e', t2.
    cbn [stopEach app]. rewrite H. repeat split; auto.
Qed.

(** X9.  [stopWorkers] looks only at the entries whose name ends with
    [.pid]: the other entries of the directory change nothing of what it
    does. *)
Theorem stopWorkers_skips_other_entries k mkdir infos (fs : gmap string node) :
  stopWorkers cfg k mkdir (inl infos) fs =
  stopWorkers cfg k mkdir (inl (List.filter isPidName infos)) fs.
Proof. unfold stopWorkers. destruct mkdir; [reflexivity|]. apply stopEach_filter. Qed.

(** X10.  When [stopWorkers] returns nil, the directory was made and read,
    every pid record listed is gone, one signal was sent for each of them,
    and no other path of the file system has changed. *)
Theorem stopWorkers_success k mkdir readdir (fs fs' : gmap string node) tr :
  stopWorkers cfg k mkdir readdir fs = (None, fs', tr) ->
  exists infos,
    mkdir = None /\ readdir = inl infos /\
    (forall name, In name infos -> isPidName name = true ->
       fs' !! Filepath.Join [LocalstateDir cfg; "run"; LongName cfg; "workers";
                             name] = None) /\
    (forall p,
       (forall name, In name infos -> isPidName name = true ->
          p <> Filepath.Join [LocalstateDir cfg; "run"; LongName cfg;
                              "workers"; name]) ->
       fs' !! p = fs !! p) /\
    length (signals tr) = length (List.filter isPidName infos).
Proof.
  unfold stopWorkers. destruct mkdir as [e|]; [discriminate|].
  destruct readdir as [infos|e]; [|discriminate]. intros H.
  destruct (stopEach_success k infos fs fs' tr H) as (_ & G & FR & N).
  exists infos. repeat split; assumption.
Qed.

(** X11.  [stopWorkers] ends at the first record it cannot stop: the
    records listed before it were stopped and removed, the error is the one
    of that [stopWorker], wrapped, and the entries listed after it are
    neither signalled nor removed. *)
Theorem stopWorkers_failure k infos (fs fs' : gmap string node) e tr :
  stopWorkers cfg k None (inl infos) fs = (Some e, fs', tr) ->
  exists l1 name l2 tr1 e' tr2,
    infos = l1 ++ name :: l2 /\ isPidName name = true /\
    stopWorkers cfg k None (inl l1) fs = (None, fs', tr1) /\
    stopWorker cfg k fs' (Strings.TrimSuffix name ".pid") = (Some e', fs', tr2) /\
    e = Wrap "cannot stop worker" e' /\ tr = tr1 ++ tr2 /\
    (length (signals tr2) <= 1)%nat.
Proof. exact (stopEach_failure k infos fs e fs' tr). Qed.

End ShutdownFacts.

Lemma stopWorkers_success_witness :
  let record := "/var/run/yggdrasil/workers/echo.pid" in
  let fs : gmap string node :=
    <[ record := Regular "4242" ]> Example.installed in
  exists infos,
    @None errno = None /\ @inl _ errno ["README"; "echo.pid"] = inl infos /\
    (forall name, In name infos -> isPidName name = true ->
       Example.installed
         !! Filepath.Join [LocalstateDir Example.cfg; "run";
                           LongName Example.cfg; "workers"; name] = None) /\
    (forall p,
       (forall name, In name infos -> isPidName name = true ->
          p <> Filepath.Join [LocalstateDir Example.cfg; "run";
                              LongName Example.cfg; "workers"; name]) ->
       Example.installed !! p = fs !! p) /\
    length (signals [EvSignal 4242; EvRemove record]) =
    length (List.filter isPidName infos).
Proof.
  intros record fs.
  apply (stopWorkers_success Example.cfg Example.kernel None
           (inl ["README"; "echo.pid"]) fs Example.installed
           [EvSignal 4242; EvRemove record]).
  vm_compute. reflexivity.
Defined.

Lemma stopWorkers_failure_witness :
  let stale := "/var/run/yggdrasil/workers/dead.pid" in
  let record := "/var/run/yggdrasil/workers/echo.pid" in
  let fs : gmap string node :=
    {[ stale := Regular "17"; record := Regular "4242" ]} in
  exists l1 name l2 tr1 e' tr2,
    ["dead.pid"; "echo.pid"] = l1 ++ name :: l2 /\ isPidName name = true /\
    stopWorkers Example.cfg Example.kernel None (inl l1) fs = (None, fs, tr1) /\
    stopWorker Example.cfg Example.kernel fs (Strings.TrimSuffix name ".pid") =
      (Some e', fs, tr2) /\
    Wrap "cannot stop worker" (Wrap "cannot stop worker" (ErrOS ESRCH)) =
      Wrap "cannot stop worker" e' /\
    [] = tr1 ++ tr2 /\ (length (signals tr2) <= 1)%nat.
Proof.
  intros stale record fs.
  apply (stopWorkers_failure Example.cfg Example.kernel
           ["dead.pid"; "echo.pid"] fs fs
           (Wrap "cannot stop worker" (Wrap "cannot stop worker" (ErrOS ESRCH)))
           []).
  vm_compute. reflexivity.
Defined.

(* ===================================================================== *)
(** * Facts about [watchWorkerDir] *)
(* ===================================================================== *)

Section WatcherFacts.

Variable Unmarshal : string -> option (string * string * list string).
Variable cfg : Config.

(** [loadWorkerConfig] returns a worker or an error, never both and never
    neither. *)
Lemma loadWorkerConfig_cases fs file :
  (exists er, loadWorkerConfig Unmarshal fs file = (None, Some er)) \/
  (exists w, loadWorkerConfig Unmarshal fs file = (Some w, None) /\
             delay w = 0 /\ directive w = filenameStem file /\
             exists data, ReadFile fs file = inl data /\
                          Unmarshal data = Some (Exec w, Protocol w, Env w)).
Proof.
  unfold loadWorkerConfig.
  destruct (ReadFile fs file) as [data|e] eqn:R; [|left; eauto].
  destruct (Unmarshal data) as [[[ex pr] en]|] eqn:U; [|left; eauto].
  right. eexists. split; [reflexivity|]. cbn. eauto.
Qed.


(** How the loop ends. *)
Lemma watchLoop_end k events : forall fs,
  let '(fin, _, tr) := watchLoop Unmarshal cfg k events fs in
  fin <> WatchFailed /\
  (fin = Panicked <-> exists er, In (EvLog LError (MsgCannotLoad er)) tr) /\
  (fin = Panicked -> exists tr0 er,
     tr = tr0 ++ [EvLog LError (MsgCannotLoad er)]) /\
  (length (signals tr) <= length (List.filter isRemoval events))%nat.
Proof.
  induction events as [|e rest IH]; intros fs.
  - cbn. repeat split; try discriminate; try lia.
    intros (? & []).
  - assert (forall fs1 t n,
      (forall er, ~ In (EvLog LError (MsgCannotLoad er)) t) ->
      (length (signals t) + length (List.filter isRemoval rest) <= n)%nat ->
      let '(fin, _, tr) :=
        (let '(fin, fs', tr') := watchLoop Unmarshal cfg k rest fs1 in
         (fin, fs', t ++ tr')) in
      fin <> WatchFailed /\
      (fin = Panicked <-> exists er, In (EvLog LError (MsgCannotLoad er)) tr) /\
      (fin = Panicked -> exists tr0 er,
         tr = tr0 ++ [EvLog LError (MsgCannotLoad er)]) /\
      (length (signals tr) <= n)%nat) as C.
    { intros fs1 t n NT LE. specialize (IH fs1).
      destruct (watchLoop Unmarshal cfg k rest fs1) as [[fin fs'] tr'].
      destruct IH as (A & B & D & L).
      split; [exact A|]. split; [|split].
      - rewrite B. split; intros (er & I); exists er.
        + rewrite in_app_iff. now right.
        + rewrite in_app_iff in I. destruct I as [I|I]; [now apply NT in I | exact I].
      - intros P. destruct (D P) as (tr0 & er & ->).
        exists (t ++ tr0), er. now rewrite app_assoc.
      - rewrite signals_app, length_app. lia. }
    assert (length (List.filter isRemoval (e :: rest)) =
            ((if isRemoval e then 1 else 0) +
             length (List.filter isRemoval rest))%nat) as FR
      by (cbn [List.filter]; destruct (isRemoval e); reflexivity).
    rewrite FR. clear FR. unfold isRemoval at 1.
    cbn [watchLoop].
    destruct (ev_kind e) eqn:EK.
    1, 2:
      destruct (loadWorkerConfig_cases (apply_ops (ev_before e) fs) (ev_path e))
        as [(er & ->)|(w0 & -> & _)];
      [ split; [discriminate|]; split;
        [ split; [intros _; exists er; cbn; auto | reflexivity]
        | split; [intros _; eexists [_; _], er; reflexivity | cbn; lia] ]
      | destruct (default false (ExcludeWorkers cfg !! directive w0));
        apply C; [ | cbn; lia | | cbn; lia];
        intros er H; inv_in H ].
    1, 2:
      pose proof (stopWorker_trace cfg k (apply_ops (ev_before e) fs)
                    (filenameStem (ev_path e))) as (L & T);
      destruct (stopWorker cfg k _ _) as [[[er|] fs1] tr]; cbn [snd] in L, T;
      apply C;
      try (rewrite ?signals_app, ?length_app; cbn; lia);
      intros er' H; inv_in H; apply T in H;
      destruct H as [(? & H)|(? & H)]; discriminate H.
Qed.


(** X13.  How the watcher ends and what it signals.  It ends with a failed
    watch point exactly when [notify.Watch] fails; it ends with a panic
    exactly when it has logged that a configuration cannot be loaded, and
    that line is then the last thing it did; and it sends at most one
    signal for each delete or move-out notification. *)
Theorem watcher_end k watch events (fs : gmap string node) :
  let r := watchWorkerDir Unmarshal cfg k watch events fs in
  (r.1.1 = WatchFailed <-> watch <> None) /\
  (r.1.1 = Panicked <-> exists er, In (EvLog LError (MsgCannotLoad er)) r.2) /\
  (r.1.1 = Panicked ->
   exists tr0 er, r.2 = tr0 ++ [EvLog LError (MsgCannotLoad er)]) /\
  (length (signals r.2) <= length (List.filter isRemoval events))%nat.
Proof.
  unfold watchWorkerDir. destruct watch as [e|]; cbv zeta.
  - cbn [fst snd]. split; [split; [discriminate | reflexivity]|].
    split; [split; [discriminate|]|split; [discriminate | cbn; lia]].
    intros (er & [H|[]]). discriminate H.
  - pose proof (watchLoop_end k events fs) as H.
    destruct (watchLoop Unmarshal cfg k events fs) as [[fin fs'] tr].
    cbn [fst snd]. destruct H as (A & B & C & D).
    split; [split; [intros X; contradiction | intros X; now contradiction X]|].
    split; [exact B|]. split; [exact C | exact D].
Qed.

End WatcherFacts.


(* ===================================================================== *)
(** * The names of the workers *)
(* ===================================================================== *)

Module StemFacts.
Import Str StrFacts Strings Filepath PathFacts CleanFacts.

Lemma Join_snoc (x : string) (l : list string) (e sep : string) :
  Strings.Join ((x :: l) ++ [e]) sep = Strings.Join (x :: l) sep +:+ sep +:+ e.
Proof.
  revert x. induction l as [|y l IH]; intros x; [reflexivity|].
  change ((x :: y :: l) ++ [e]) with (x :: ((y :: l) ++ [e])).
  change ((y :: l) ++ [e]) with (y :: (l ++ [e])) at 1.
  rewrite !Join_cons. change (y :: (l ++ [e])) with ((y :: l) ++ [e]).
  now rewrite IH, !app_assoc.
Qed.

(** The cleaned path of [Q/e] ends with the element [e]. *)
Lemma Clean_last (Q e : string) :
  Q <> "" -> keptElement e -> e <> ".." ->
  exists pre, Clean (Q +:+ String "/" e) = pre +:+ e /\
              (pre = "" \/ exists p, pre = p +:+ "/").
Proof.
  intros NE K ND.
  assert (canonical (rootedOf Q)
            (fold_left (cleanStep (rootedOf Q)) (Split Q "/") [])) as C.
  { apply fold_canonical; [apply Split_lacks | exact I]. }
  rewrite Clean_eq by (intros H; apply app_eq_nil in H as [H _]; congruence).
  rewrite rootedOf_app by exact NE.
  rewrite Split_app, fold_left_app.
  destruct K as (K1 & K2 & K3).
  rewrite (Split_single e "/") by exact K3. cbn [fold_left].
  rewrite cleanStep_kept by (auto; repeat split; auto).
  apply String.eqb_neq in ND. rewrite ND.
  set (S := fold_left _ _ _). unfold cleaned. cbn [List.rev].
  assert (exists pre, Strings.Join (List.rev S ++ [e]) "/" = pre +:+ e /\
                      (pre = "" \/ exists p, pre = p +:+ "/")) as (pre & -> & P).
  { destruct (List.rev S) as [|x l].
    - exists "". split; [reflexivity | now left].
    - rewrite Join_snoc. exists (Strings.Join (x :: l) "/" +:+ "/").
      split; [now rewrite app_assoc | right; eauto]. }
  destruct (rootedOf Q).
  - replace (String.eqb ("/" +:+ pre +:+ e) "") with false by reflexivity.
    exists ("/" +:+ pre). split; [now rewrite app_assoc|].
    right. destruct P as [->|(p & ->)]; [now exists "" | exists ("/" +:+ p)].
    now rewrite app_assoc.
  - destruct (String.eqb (pre +:+ e) "") eqn:E.
    + apply String.eqb_eq, app_eq_nil in E as [_ E]. congruence.
    + eauto.
Qed.

Lemma Join_last (e : string) : forall l : list string,
  keptElement e -> e <> ".." -> Exists (fun x => x <> "") l ->
  exists pre, Filepath.Join (l ++ [e]) = pre +:+ e /\
              (pre = "" \/ exists p, pre = p +:+ "/").
Proof.
  intros l K ND. induction l as [|x l IH]; intros X; [inversion X|].
  change ((x :: l) ++ [e]) with (x :: (l ++ [e])). cbn [Filepath.Join].
  destruct (String.eqb x "") eqn:E.
  - apply String.eqb_eq in E. apply IH.
    inversion X; subst; [congruence | assumption].
  - apply String.eqb_neq in E.
    change (x :: (l ++ [e])) with ((x :: l) ++ [e]). rewrite Join_snoc.
    apply Clean_last; auto.
    destruct l as [|y l]; [exact E|]. rewrite Join_cons.
    intros H. apply app_eq_nil in H as [H _]. congruence.
Qed.

(** The stem of a path that ends with the element [n.x]. *)
Lemma filenameStem_last (pre n x : string) :
  pre = "" \/ (exists p, pre = p +:+ "/") ->
  lacks "/" n = true -> lacks "/" x = true -> lacks "." x = true ->
  filenameStem (pre +:+ n +:+ String "." x) = n.
Proof.
  intros P Ln Lx Dx. set (e := n +:+ String "." x).
  assert (lacks "/" e = true) as Le.
  { unfold e. rewrite lacks_app, Ln. cbn [lacks]. now rewrite Lx. }
  assert (exists c r, rev e = String c r) as (c & r & R).
  { destruct (rev e) as [|c r] eqn:R; [|eauto].
    apply rev_eq_nil in R. unfold e in R.
    apply app_eq_nil in R as [_ R]. discriminate. }
  assert (IsPathSeparator c = false) as Sc.
  { pose proof (lacks_rev "/" e) as L. rewrite Le, R in L. cbn [lacks] in L.
    apply andb_true_iff in L as [L _]. now apply negb_true_iff in L. }
  rewrite filenameStem_spec_ok.
  - unfold filenameStem_spec. rewrite baseName_spec_rev, rev_app.
    rewrite untilSeparator_app, lacks_rev, Le.
    assert (untilSeparator (rev pre) = "") as ->.
    { destruct P as [->|(p & ->)]; [reflexivity|].
      now rewrite rev_app. }
    rewrite app_nil_r, rev_involutive. unfold e.
    now apply withoutExtension_app.
  - unfold namesFile. rewrite rev_app, R. str_simpl. now rewrite Sc.
Qed.

End StemFacts.

Section NamesFacts.

Variable Unmarshal : string -> option (string * string * list string).
Variable cfg : Config.

Lemma kept_toml (name : string) :
  Str.lacks "/" name = true ->
  keptElement (name +:+ ".toml") /\ name +:+ ".toml" <> "..".
Proof.
  intros L. split; [split; [|split]|].
  - destruct name; discriminate.
  - destruct name as [|c [|d n]]; discriminate.
  - now rewrite StrFacts.lacks_app, L.
  - destruct name as [|c [|d [|d' n]]]; discriminate.
Qed.

(** The stem of the configuration file of a worker is the worker's name. *)
Lemma configFile_stem (name : string) :
  Str.lacks "/" name = true -> filenameStem (configFile cfg name) = name.
Proof.
  intros L. destruct (kept_toml name L) as (K & ND). unfold configFile.
  destruct (StemFacts.Join_last (name +:+ ".toml")
              [SysconfDir cfg; LongName cfg; "workers"] K ND)
    as (pre & E & P).
  { do 2 apply Exists_cons_tl. apply Exists_cons_hd. discriminate. }
  cbn [app] in E. rewrite E.
  now apply (StemFacts.filenameStem_last pre name "toml").
Qed.

(** X14.  The names of the workers go round: the worker loaded from the
    configuration file that [workerExists] looks for under the name [name]
    (a name without separator) has [name] as its name, and [workerExists]
    holds of it. *)
Theorem configFile_round_trip (fs : gmap string node) (name : string) w :
  Str.lacks "/" name = true ->
  loadWorkerConfig Unmarshal fs (configFile cfg name) = (Some w, None) ->
  directive w = name /\ delay w = 0 /\ workerExists cfg fs name = true.
Proof.
  intros L H.
  destruct (loadWorkerConfig_cases Unmarshal fs (configFile cfg name))
    as [(er & E)|(w' & E & D & N & data & R & _)]; [congruence|].
  assert (w' = w) as -> by congruence.
  rewrite N, configFile_stem by exact L. repeat split; auto.
  unfold workerExists. fold (configFile cfg name). unfold Stat.
  unfold ReadFile in R.
  destruct (fs !! configFile cfg name) as [[d|f]|]; [reflexivity | discriminate..].
Qed.

(** X15.  When the configuration file of a worker is deleted or moved
    out, the watcher stops that worker: it signals the pid that the worker's
    record holds in decimal, with white space around it or not, and removes
    the record. *)
Theorem watch_removal_stops k (e : notification) (fs : gmap string node)
  (name : string) (pid : Z) (ws1 ws2 : string) :
  Str.lacks "/" name = true ->
  isRemoval e = true -> ev_path e = configFile cfg name ->
  - 2 ^ 63 <= pid < 2 ^ 63 ->
  allSpace ws1 = true -> allSpace ws2 = true ->
  apply_ops (ev_before e) fs !! pidFile cfg name =
    Some (Regular (ws1 +:+ Strconv.FormatInt pid +:+ ws2)) ->
  sigterm k pid = None -> unlink k (pidFile cfg name) = None ->
  watchLoop Unmarshal cfg k [e] fs =
  (ChannelClosed, delete (pidFile cfg name) (apply_ops (ev_before e) fs),
   [EvLog LDebug (MsgReceived (ev_kind e)); EvSignal pid;
    EvRemove (pidFile cfg name)]).
Proof.
  intros L K P R W1 W2 F SG U.
  destruct (stopWorker_reads_record cfg k _ name pid ws1 ws2 R W1 W2 F)
    as (_ & ST).
  specialize (ST SG U). cbn [watchLoop]. rewrite P, configFile_stem by exact L.
  rewrite ST. unfold isRemoval in K.
  destruct (ev_kind e); try discriminate K; reflexivity.
Qed.

End NamesFacts.

Lemma configFile_round_trip_witness :
  let w := {| Exec := "/bin/echo hi"; Protocol := "grpc"; Env := [];
              delay := 0; directive := "echo" |} in
  directive w = "echo" /\ delay w = 0 /\
  workerExists Example.cfg Example.installed "echo" = true.
Proof.
  intros w.
  apply (configFile_round_trip Example.Unmarshal Example.cfg Example.installed
           "echo" w); reflexivity.
Defined.

Lemma watch_removal_stops_witness :
  let record := "/var/run/yggdrasil/workers/echo.pid" in
  let gone := {| ev_kind := InDelete;
                 ev_path := "/etc/yggdrasil/workers/echo.toml";
                 ev_before := [FsRemove "/etc/yggdrasil/workers/echo.toml"] |} in
  let fs : gmap string node :=
    <[ record := Regular (" 4242" +:+ String Str.LF "") ]> Example.installed in
  watchLoop Example.Unmarshal Example.cfg Example.kernel [gone] fs =
  (ChannelClosed, delete record (apply_ops (ev_before gone) fs),
   [EvLog LDebug (MsgReceived InDelete); EvSignal 4242; EvRemove record]).
Proof.
  intros record gone fs.
  apply (watch_removal_stops Example.Unmarshal Example.cfg Example.kernel gone
           fs "echo" 4242 " " (String Str.LF ""));
    try reflexivity.
  lia.
Defined.

(* ===================================================================== *)
(** * The output of the workers and their environment *)
(* ===================================================================== *)

Module PumpFacts.
Import Str StrFacts Strings PathFacts Pump.

Lemma rev_zeros n : rev (zeros n) = zeros n.
Proof.
  induction n as [|n IH]; [reflexivity|]. cbn [zeros]. rewrite rev_cons, IH.
  clear IH. induction n as [|n IH]; [reflexivity|].
  cbn [zeros]. str_simpl. now rewrite IH.
Qed.

Lemma dropCutset_zeros n s :
  dropCutset cutset (zeros n +:+ s) = dropCutset cutset s.
Proof. induction n as [|n IH]; [reflexivity|]. cbn [zeros]. str_simpl. exact IH. Qed.

(** The zeros that fill the buffer do not show in the text. *)
Lemma TrimRight_buffer data :
  TrimRight (buffer data) cutset = TrimRight data cutset.
Proof.
  unfold TrimRight, buffer. now rewrite rev_app, rev_zeros, dropCutset_zeros.
Qed.

Lemma dropCutset_split cs s :
  exists pre, s = pre +:+ dropCutset cs s /\ allIn cs pre = true.
Proof.
  induction s as [|c s (pre & E & A)]; [now exists ""|].
  cbn [dropCutset]. destruct (inCutset c cs) eqn:I.
  - exists (String c pre). str_simpl. cbn [allIn]. now rewrite <- E, I, A.
  - now exists "".
Qed.

Lemma dropCutset_head cs s c r :
  dropCutset cs s = String c r -> inCutset c cs = false.
Proof.
  induction s as [|d s IH]; [discriminate|]. cbn [dropCutset].
  destruct (inCutset d cs) eqn:I; [exact IH|]. now intros [= <- <-].
Qed.

Lemma allIn_rev cs s : allIn cs (rev s) = allIn cs s.
Proof.
  assert (forall a b, allIn cs (a +:+ b) = allIn cs a && allIn cs b) as A.
  { induction a as [|x a IH]; intros b; [reflexivity|].
    str_simpl. cbn [allIn]. now rewrite IH, andb_assoc. }
  induction s as [|c s IH]; [reflexivity|].
  rewrite rev_cons, A, IH. cbn [allIn]. rewrite andb_true_r. apply andb_comm.
Qed.

(** [TrimRight] removes bytes of the cutset from the end, and all of
    them. *)
Lemma TrimRight_spec s cs :
  (exists tail, s = TrimRight s cs +:+ tail /\ allIn cs tail = true) /\
  (forall t c, TrimRight s cs = t +:+ String c "" -> inCutset c cs = false).
Proof.
  unfold TrimRight. split.
  - destruct (dropCutset_split cs (rev s)) as (pre & E & A).
    exists (rev pre). split; [|now rewrite allIn_rev].
    rewrite <- rev_app, <- E. now rewrite rev_involutive.
  - intros t c E. apply (f_equal rev) in E.
    rewrite rev_involutive, rev_app in E. str_simpl.
    change (rev (String c "")) with (String c "") in E. str_simpl.
    exact (dropCutset_head _ _ _ _ E).
Qed.

Lemma traced_app a b : traced (a ++ b) = traced a ++ traced b.
Proof. apply omap_app. Qed.

(** The loop returns at the first end of file and not before: what follows
    is not read, and a failed read does not end it. *)
Lemma pump_upToEOF s program reads :
  pump s program reads = pump s program (upToEOF reads) /\
  (pump s program reads).1 = existsb isEOF reads.
Proof.
  induction reads as [|[d [[|e]|]] rest [IH1 IH2]]; [now split|..];
    cbn [pump upToEOF existsb isEOF rd_err rd_data orb]; [now split|..];
    rewrite <- IH1; destruct (pump s program rest); now split.
Qed.

(** The texts of the trace lines: one for each read of at least one byte,
    the bytes read without the line feeds and zeros at their end. *)
Lemma pump_traced s program reads :
  traced (pump s program reads).2 =
  map (fun r => TrimRight (rd_data r) cutset)
      (List.filter (fun r => (0 <? String.length (rd_data r))%nat)
                   (upToEOF reads)).
Proof.
  induction reads as [|[d [[|e]|]] rest IH]; [reflexivity|..];
    cbn [pump upToEOF isEOF rd_err rd_data List.filter];
    try (destruct (pump s program rest) as [fin tr]; cbn [snd] in IH |- *);
    destruct (0 <? String.length d)%nat; cbn [snd app map List.filter];
    rewrite ?traced_app; cbn [traced omap list_omap app];
    rewrite ?TrimRight_buffer; fold (traced tr); rewrite ?IH; reflexivity.
Qed.

Lemma upToEOF_app pre r post :
  isEOF r = true -> existsb isEOF pre = false ->
  upToEOF (pre ++ r :: post) = pre ++ [r].
Proof.
  intros E. induction pre as [|x pre IH]; cbn [app upToEOF existsb].
  - now rewrite E.
  - intros [-> H]%orb_false_iff. now rewrite IH.
Qed.

End PumpFacts.

(** X16.  A loop that copies the output of a worker returns at the first
    end of file and not before: the reads after it are not made, a read that
    fails with another error does not end the loop, and the loop has
    returned exactly when one of the reads met the end of file. *)
Theorem pump_stops_at_EOF (s : Pump.stream) (program : string)
  (reads : list Pump.read) :
  Pump.pump s program reads = Pump.pump s program (upToEOF reads) /\
  (Pump.pump s program reads).1 = existsb Pump.isEOF reads /\
  (forall pre r post,
     reads = pre ++ r :: post -> Pump.isEOF r = true ->
     existsb Pump.isEOF pre = false ->
     Pump.pump s program reads = Pump.pump s program (pre ++ [r])).
Proof.
  destruct (PumpFacts.pump_upToEOF s program reads) as (A & B).
  split; [exact A|]. split; [exact B|].
  intros pre r post -> E P.
  rewrite (proj1 (PumpFacts.pump_upToEOF s program (pre ++ r :: post))).
  rewrite (proj1 (PumpFacts.pump_upToEOF s program (pre ++ [r]))).
  now rewrite !PumpFacts.upToEOF_app.
Qed.

(** X17.  The lines a loop traces: one for each read of at least one byte
    up to the end of file, in order; its text is the bytes read without the
    line feeds and zero bytes at their end, so that the zeros that fill the
    rest of the buffer never show, and no text ends with a line feed or a
    zero byte. *)
Theorem pump_texts (s : Pump.stream) (program : string)
  (reads : list Pump.read) :
  Pump.traced (Pump.pump s program reads).2 =
    map (fun r => Strings.TrimRight (Pump.rd_data r) Pump.cutset)
        (List.filter (fun r => (0 <? String.length (Pump.rd_data r))%nat)
                     (upToEOF reads)) /\
  Forall (fun text => forall t c, text = t +:+ String c "" ->
                                  c <> Str.LF /\ c <> Pump.NUL)
         (Pump.traced (Pump.pump s program reads).2) /\
  (forall r, exists tail,
     Pump.rd_data r =
       Strings.TrimRight (Pump.rd_data r) Pump.cutset +:+ tail /\
     allIn Pump.cutset tail = true).
Proof.
  split; [apply PumpFacts.pump_traced|]. split.
  - rewrite PumpFacts.pump_traced. apply List.Forall_forall. intros text I.
    apply in_map_iff in I as (r & <- & _). intros t c E.
    pose proof (proj2 (PumpFacts.TrimRight_spec _ _) t c E) as X.
    cbn [Strings.inCutset Pump.cutset] in X.
    apply orb_false_iff in X as [X1 X2]. apply orb_false_iff in X2 as [X2 _].
    split; intros ->; [rewrite Ascii.eqb_refl in X1 | rewrite Ascii.eqb_refl in X2];
      discriminate.
  - intros r. exact (proj1 (PumpFacts.TrimRight_spec _ _)).
Qed.


Module EnvFacts.
Import Str StrFacts Strings.

Lemma envKey_split entry : forall key,
  envKey entry = Some key -> exists v, entry = key +:+ "=" +:+ v.
Proof.
  induction entry as [|c s IH]; intros key; [discriminate|]. cbn [envKey].
  destruct (Ascii.eqb c "=") eqn:E.
  - apply Ascii.eqb_eq in E as ->. intros [= <-]. now exists s.
  - destruct (envKey s) as [k|]; [|discriminate]. cbn [option_map].
    intros [= <-]. destruct (IH k eq_refl) as (v & ->). exists v. now str_simpl.
Qed.

Lemma envKey_app key v :
  lacks "=" key = true -> envKey (key +:+ "=" +:+ v) = Some key.
Proof.
  induction key as [|c k IH]; [reflexivity|]. cbn [lacks].
  intros [D L]%andb_true_iff. apply negb_true_iff in D.
  str_simpl. cbn [envKey]. now rewrite D, IH.
Qed.

Lemma reserved_invalid entry key :
  reservedKey key -> envKey entry = Some key -> validEnvVar entry = false.
Proof.
  intros R E. apply envKey_split in E as (v & ->).
  apply RegexpFacts.validEnvVar_false.
  destruct R as [(p & ->)|(p & q & -> & Q)].
  - left. exists p, v. now rewrite !app_assoc.
  - right. exists p, q, v. split; [now rewrite !app_assoc | exact Q].
Qed.

Lemma withKey_app key a b : withKey key (a ++ b) = withKey key a ++ withKey key b.
Proof. apply List.filter_app. Qed.

Lemma withKey_valid key (env : list string) :
  reservedKey key -> withKey key (List.filter validEnvVar env) = [].
Proof.
  intros R. induction env as [|e env IH]; [reflexivity|].
  cbn [List.filter]. destruct (validEnvVar e) eqn:V; [|exact IH].
  unfold withKey in *. cbn [List.filter]. rewrite IH.
  destruct (envKey e) as [k|] eqn:K; [|reflexivity].
  destruct (String.eqb k key) eqn:Q; [|reflexivity].
  apply String.eqb_eq in Q as ->.
  rewrite (reserved_invalid e key R K) in V. discriminate.
Qed.

End EnvFacts.

Section EnvironmentFacts.

Variable cfg : Config.

Lemma withKey_daemonEnv :
  withKey "PATH" (daemonEnv cfg) =
    ["PATH=/usr/local/sbin:/usr/local/bin:/usr/sbin:/usr/bin:/sbin:/bin"] /\
  withKey "YGG_CONFIG_DIR" (daemonEnv cfg) =
    ["YGG_CONFIG_DIR=" +:+ Filepath.Join [SysconfDir cfg; LongName cfg]] /\
  withKey "YGG_LOG_LEVEL" (daemonEnv cfg) = ["YGG_LOG_LEVEL=" +:+ LogLevel cfg] /\
  withKey "YGG_CLIENT_ID" (daemonEnv cfg) = ["YGG_CLIENT_ID=" +:+ ClientID cfg] /\
  withKey "YGG_SOCKET_ADDR" (daemonEnv cfg) =
    ["YGG_SOCKET_ADDR=unix:" +:+ SocketAddr cfg].
Proof.
  unfold daemonEnv, baseEnv, proxyEnv.
  generalize (Filepath.Join [SysconfDir cfg; LongName cfg]).
  destruct (String.eqb (HTTPProxy cfg) ""), (String.eqb (HTTPSProxy cfg) ""),
    (String.eqb (NoProxy cfg) ""); intros; repeat split.
Qed.

(** X18.  No entry of the worker's [env] takes a reserved key in the
    environment of a process [startWorker] creates: the entries with a key
    that ends with [PATH], or that holds [YGG_] with no line feed after it,
    are those of the daemon. *)
Theorem reserved_keys_from_daemon script fs w st sp p a env res key :
  reservedKey key ->
  In (EvExec p a env res) (startWorker cfg script fs w st sp).2 ->
  withKey key env = withKey key (daemonEnv cfg).
Proof.
  intros R H. apply exec_events in H as (_ & _ & ->). unfold childEnv.
  now rewrite EnvFacts.withKey_app, EnvFacts.withKey_valid, app_nil_r.
Qed.

(** X19.  Every process [startWorker] creates gets each of the variables
    [PATH], [YGG_CONFIG_DIR], [YGG_LOG_LEVEL], [YGG_CLIENT_ID] and
    [YGG_SOCKET_ADDR] once, with the value of the daemon: the worker can
    neither change nor repeat them. *)
Theorem daemon_keys script fs w st sp p a env res :
  In (EvExec p a env res) (startWorker cfg script fs w st sp).2 ->
  withKey "PATH" env =
    ["PATH=/usr/local/sbin:/usr/local/bin:/usr/sbin:/usr/bin:/sbin:/bin"] /\
  withKey "YGG_CONFIG_DIR" env =
    ["YGG_CONFIG_DIR=" +:+ Filepath.Join [SysconfDir cfg; LongName cfg]] /\
  withKey "YGG_LOG_LEVEL" env = ["YGG_LOG_LEVEL=" +:+ LogLevel cfg] /\
  withKey "YGG_CLIENT_ID" env = ["YGG_CLIENT_ID=" +:+ ClientID cfg] /\
  withKey "YGG_SOCKET_ADDR" env = ["YGG_SOCKET_ADDR=unix:" +:+ SocketAddr cfg].
Proof.
  intros H. apply exec_events in H as (_ & _ & ->). unfold childEnv.
  destruct withKey_daemonEnv as (A & B & C & D & E).
  rewrite !EnvFacts.withKey_app, A, B, C, D, E.
  rewrite (EnvFacts.withKey_valid "PATH") by (left; now exists "").
  rewrite (EnvFacts.withKey_valid "YGG_CONFIG_DIR")
    by (right; now exists "", "CONFIG_DIR").
  rewrite (EnvFacts.withKey_valid "YGG_LOG_LEVEL")
    by (right; now exists "", "LOG_LEVEL").
  rewrite (EnvFacts.withKey_valid "YGG_CLIENT_ID")
    by (right; now exists "", "CLIENT_ID").
  rewrite (EnvFacts.withKey_valid "YGG_SOCKET_ADDR")
    by (right; now exists "", "SOCKET_ADDR").
  repeat split.
Qed.

End EnvironmentFacts.

Lemma reserved_keys_from_daemon_witness :
  let env := daemonEnv Example.cfg ++ ["FOO=1"] in
  withKey "YGG_CLIENT_ID" env = withKey "YGG_CLIENT_ID" (daemonEnv Example.cfg).
Proof.
  intros env.
  apply (reserved_keys_from_daemon Example.cfg [Example.fast 101]
           Example.installed Example.echo false true
           "/bin/echo" ["hi"] env (inl 101) "YGG_CLIENT_ID").
  - right. exists "", "CLIENT_ID". split; reflexivity.
  - vm_compute. auto.
Defined.

Lemma daemon_keys_witness :
  let env := daemonEnv Example.cfg ++ ["FOO=1"] in
  withKey "PATH" env =
    ["PATH=/usr/local/sbin:/usr/local/bin:/usr/sbin:/usr/bin:/sbin:/bin"] /\
  withKey "YGG_CONFIG_DIR" env = ["YGG_CONFIG_DIR=/etc/yggdrasil"] /\
  withKey "YGG_LOG_LEVEL" env = ["YGG_LOG_LEVEL=info"] /\
  withKey "YGG_CLIENT_ID" env = ["YGG_CLIENT_ID=c0ffee"] /\
  withKey "YGG_SOCKET_ADDR" env = ["YGG_SOCKET_ADDR=unix:@yggd"].
Proof.
  intros env.
  apply (daemon_keys Example.cfg [Example.fast 101]
           Example.installed Example.echo false true
           "/bin/echo" ["hi"] env (inl 101)).
  vm_compute. auto.
Defined.
